(** * Naive Bayes headline classifier (TP1/ej_2.py): model and properties

    The development embeds the training, scoring and evaluation code of
    [TP1/ej_2.py] and states its properties.

    Conventions of the embedding:
    - a Python [int] that only ever counts (token counts, document counts,
      confusion counts) is a [nat];
    - a Python [float] is an exact rational [Qc]: the arithmetic of the
      program is followed operation by operation, rounding and underflow of
      binary64 are not part of the model;
    - a [str] is a [string]; a character is whitespace for [str.split] as
      Python decides it on the code points below 256;
    - the outer dictionaries ([class_word_counts], [class_priors], the
      posteriors) are iterated by the program, so they are insertion-ordered
      association lists; the per-category count table is only looked up and is
      a [gmap]; [vocab] is a [gset];
    - a raised exception is the [Raise] branch of [result]. *)

From Stdlib Require Import Ascii QArith Qcanon Qround Lia.
From stdpp Require Import numbers base option list gmap strings.

Local Open Scope Qc_scope.

(** ** Exceptions *)

Inductive PyError : Type :=
  | ZeroDivisionError
  | KeyError (key : string)
  | IndexError
  | ValueError.

Inductive result (A : Type) : Type :=
  | Ok (a : A)
  | Raise (e : PyError).
Arguments Ok {A} a.
Arguments Raise {A} e.

#[global] Instance result_ret : MRet result := fun A a => Ok a.
#[global] Instance result_bind : MBind result := fun A B k r =>
  match r with
  | Ok a => k a
  | Raise e => Raise e
  end.

Definition of_option {A : Type} (e : PyError) (o : option A) : result A :=
  match o with
  | Some a => Ok a
  | None => Raise e
  end.

(** ** Numbers *)

Definition Qc_of_nat (n : nat) : Qc := Qc_of_Z (Z.of_nat n).

(** [a / b] of Python: true division, [ZeroDivisionError] on a zero divisor. *)
Definition py_div (a b : Qc) : result Qc :=
  if decide (b = 0) then Raise ZeroDivisionError else Ok (a / b).

(** [a > b] *)
Definition Qc_gtb (a b : Qc) : bool := bool_decide (b < a).

(** [int(x)]: truncation towards zero. *)
Definition py_int (x : Qc) : Z := Z.quot (Qnum (this x)) (Zpos (Qden (this x))).

(** ** Insertion-ordered dictionaries *)

Abbreviation dict V := (list (string * V)).

Section Dict.
Context {V : Type}.

Fixpoint dict_get (d : dict V) (k : string) : option V :=
  match d with
  | [] => None
  | (k', v) :: d' => if decide (k' = k) then Some v else dict_get d' k
  end.

(** [d[k] = v]: an existing key keeps its place, a new key goes last. *)
Fixpoint dict_set (d : dict V) (k : string) (v : V) : dict V :=
  match d with
  | [] => [(k, v)]
  | (k', v') :: d' =>
      if decide (k' = k) then (k', v) :: d' else (k', v') :: dict_set d' k v
  end.

Definition dict_keys (d : dict V) : list string := d.*1.
Definition dict_values (d : dict V) : list V := d.*2.

(** [d[k]] *)
Definition dict_item (d : dict V) (k : string) : result V :=
  of_option (KeyError k) (dict_get d k).
End Dict.

(** ** [str.split()] *)

Definition is_space (c : ascii) : bool :=
  let n := nat_of_ascii c in
  ((9 <=? n) && (n <=? 13) || (28 <=? n) && (n <=? 32)
   || (n =? 133) || (n =? 160))%nat.

(** [cur] holds the current word, reversed. *)
Definition flush (cur : list ascii) (acc : list string) : list string :=
  match cur with
  | [] => acc
  | _ => acc ++ [String.string_of_list_ascii (rev cur)]
  end.

Fixpoint split_go (s : string) (cur : list ascii) (acc : list string)
  : list string :=
  match s with
  | EmptyString => flush cur acc
  | String c s' =>
      if is_space c then split_go s' [] (flush cur acc)
      else split_go s' (c :: cur) acc
  end.

Definition split (text : string) : list string := split_go text [] [].

(** ** Tokenizer *)

Record Tokenizer : Type := {
  filter : string -> bool;
  sanitizer : string -> string
}.

Definition apply (self : Tokenizer) (text : string) : list string :=
  map (sanitizer self) (List.filter (filter self) (split text)).

Definition identity (word : string) : string := word.
Definition identity_filter (word : string) : bool := true.

(** ** The classifier *)

Definition TOTAL : string := "__total__".

Record NaiveBayesClassifier : Type := {
  vocab : gset string;
  tokenizer : Tokenizer;
  class_priors : dict Qc;
  class_word_counts : dict (gmap string nat)
}.

(** [NaiveBayesClassifier(tokenizer)] *)
Definition init (tok : Tokenizer) : NaiveBayesClassifier :=
  {| vocab := ∅; tokenizer := tok; class_priors := [];
     class_word_counts := [] |}.

(** The inner loop of [fit]: [for word in words] on the table of one label. *)
Definition count_word (table : gmap string nat) (word : string)
  : gmap string nat :=
  let table := match table !! word with
               | None => <[word := 0%nat]> table
               | Some _ => table
               end in
  <[word := S (default 0%nat (table !! word))]> table.

Definition count_words (table : gmap string nat) (words : list string)
  : gmap string nat :=
  foldl count_word table words.

(** One turn of the outer loop of [fit], for the tokens [words] of a document
    of label [label]. *)
Definition fit_document (vocab : gset string)
    (cwc : dict (gmap string nat)) (words : list string) (label : string)
  : result (gset string * dict (gmap string nat)) :=
  let vocab := vocab ∪ list_to_set words in
  let cwc := match dict_get cwc label with
             | None => dict_set cwc label {[ TOTAL := 0%nat ]}
             | Some _ => cwc
             end in
  table ← dict_item cwc label;
  total ← of_option (KeyError TOTAL) (table !! TOTAL);
  let table := <[TOTAL := (total + length words)%nat]> table in
  Ok (vocab, dict_set cwc label (count_words table words)).

(** [for i in range(len(X))], with [X] the documents from index [i] on. *)
Fixpoint fit_loop (tok : Tokenizer) (X : list string) (y : list string)
    (i : nat) (vocab : gset string) (cwc : dict (gmap string nat))
  : result (gset string * dict (gmap string nat)) :=
  match X with
  | [] => Ok (vocab, cwc)
  | text :: X' =>
      label ← of_option IndexError (y !! i);
      '(vocab, cwc) ← fit_document vocab cwc (apply tok text) label;
      fit_loop tok X' y (S i) vocab cwc
  end.

(** The dictionary comprehension that ends [fit]. *)
Fixpoint compute_priors (items : dict (gmap string nat))
    (total_documents : nat) : result (dict Qc) :=
  match items with
  | [] => Ok []
  | (label, count) :: items' =>
      total ← of_option (KeyError TOTAL) (count !! TOTAL);
      prior ← py_div (Qc_of_nat total) (Qc_of_nat total_documents);
      rest ← compute_priors items' total_documents;
      Ok ((label, prior) :: rest)
  end.

Definition fit (self : NaiveBayesClassifier) (X : list string)
    (y : list string) : result NaiveBayesClassifier :=
  '(vocab, cwc) ← fit_loop (tokenizer self) X y 0
                     (vocab self) (class_word_counts self);
  priors ← compute_priors cwc (length y);
  Ok {| vocab := vocab; tokenizer := tokenizer self;
        class_priors := priors; class_word_counts := cwc |}.

(** [_calculate_posteriors]: the loop over [words] for one label. [cwc[label]]
    and its ["__total__"] are looked up once per word, as in the source. *)
Fixpoint likelihood_loop (self : NaiveBayesClassifier) (label : string)
    (words : list string) (likelihood : Qc) : result Qc :=
  match words with
  | [] => Ok likelihood
  | word :: words' =>
      table ← dict_item (class_word_counts self) label;
      let word_count := default 0%nat (table !! word) in
      total_words ← of_option (KeyError TOTAL) (table !! TOTAL);
      factor ← py_div (Qc_of_nat (word_count + 1))
                      (Qc_of_nat (total_words + size (vocab self)));
      likelihood_loop self label words' (likelihood * factor)
  end.

(** The loop [for label in self.class_priors]; [labels] are the keys still to
    visit and [posteriors] the dictionary built so far. *)
Fixpoint posteriors_loop (self : NaiveBayesClassifier) (words : list string)
    (labels : list string) (posteriors : dict Qc) : result (dict Qc) :=
  match labels with
  | [] => Ok posteriors
  | label :: labels' =>
      prior ← dict_item (class_priors self) label;
      likelihood ← likelihood_loop self label words 1;
      posteriors_loop self words labels'
        (dict_set posteriors label (prior * likelihood))
  end.

Definition _calculate_posteriors (self : NaiveBayesClassifier) (text : string)
  : result (dict Qc) :=
  let words := apply (tokenizer self) text in
  posteriors_loop self words (dict_keys (class_priors self)) [].

(** [max(d, key=d.get)]: the first key whose value no other exceeds;
    [ValueError] on an empty dictionary. *)
Fixpoint max_from (best : string * Qc) (d : dict Qc) : string :=
  match d with
  | [] => best.1
  | (k, v) :: d' => if Qc_gtb v best.2 then max_from (k, v) d'
                    else max_from best d'
  end.

Definition py_max_key (d : dict Qc) : result string :=
  match d with
  | [] => Raise ValueError
  | kv :: d' => Ok (max_from kv d')
  end.

Fixpoint predict (self : NaiveBayesClassifier) (X : list string)
  : result (list string) :=
  match X with
  | [] => Ok []
  | text :: X' =>
      posteriors ← _calculate_posteriors self text;
      best ← py_max_key posteriors;
      predictions ← predict self X';
      Ok (best :: predictions)
  end.

(** [sum(d.values())] *)
Definition py_sum (l : list Qc) : Qc := foldl Qcplus 0 l.

Record Counts : Type := { TP : nat; FP : nat; FN : nat; TN : nat }.

(** One turn of the loop of [classify]: the decision on document [index]. *)
Definition classify_step (self : NaiveBayesClassifier) (text : string)
    (y : list string) (index : nat) (umbral : Qc) (category : string)
    (c : Counts) : result Counts :=
  posteriors ← _calculate_posteriors self text;
  cat_prob ← dict_item posteriors category;
  let total_sum := py_sum (dict_values posteriors) in
  score ← py_div cat_prob total_sum;
  truth ← of_option IndexError (y !! index);
  Ok (if Qc_gtb score umbral then
        if decide (truth = category)
        then {| TP := S (TP c); FP := FP c; FN := FN c; TN := TN c |}
        else {| TP := TP c; FP := S (FP c); FN := FN c; TN := TN c |}
      else
        if decide (truth = category)
        then {| TP := TP c; FP := FP c; FN := S (FN c); TN := TN c |}
        else {| TP := TP c; FP := FP c; FN := FN c; TN := S (TN c) |}).

Fixpoint classify_loop (self : NaiveBayesClassifier) (X : list string)
    (y : list string) (index : nat) (umbral : Qc) (category : string)
    (c : Counts) : result Counts :=
  match X with
  | [] => Ok c
  | text :: X' =>
      c' ← classify_step self text y index umbral category c;
      classify_loop self X' y (S index) umbral category c'
  end.

Definition classify (self : NaiveBayesClassifier) (X : list string)
    (y : list string) (umbral : Qc) (category : string) : result Counts :=
  classify_loop self X y 0 umbral category
    {| TP := 0; FP := 0; FN := 0; TN := 0 |}.

(** ** Metrics *)

Record Metrics : Type := {
  Accuracy : Qc; Precision : Qc; Recall : Qc; F1_Score : Qc
}.

(** The body of the loop of [compute_metrics], for the counts of one
    category. The guarded divisions cannot raise: [a / b if b > 0 else 0]. *)
Definition metrics_of (values : Counts) : Metrics :=
  let TP := TP values in
  let FP := FP values in
  let TN := TN values in
  let FN := FN values in
  let accuracy :=
    if (0 <? TP + FP + TN + FN)%nat
    then Qc_of_nat (TP + TN) / Qc_of_nat (TP + FP + TN + FN) else 0 in
  let precision :=
    if (0 <? TP + FP)%nat then Qc_of_nat TP / Qc_of_nat (TP + FP) else 0 in
  let recall :=
    if (0 <? TP + FN)%nat then Qc_of_nat TP / Qc_of_nat (TP + FN) else 0 in
  let f1_score :=
    if Qc_gtb (precision + recall) 0
    then 2 * (precision * recall) / (precision + recall) else 0 in
  {| Accuracy := accuracy; Precision := precision; Recall := recall;
     F1_Score := f1_score |}.

Definition compute_metrics (confusion_matrix : dict Counts) : dict Metrics :=
  foldl (fun metrics '(category, values) =>
           dict_set metrics category (metrics_of values))
        [] confusion_matrix.

(** ** ROC points *)

(** [np.linspace(0.0, 1.0, 11)] *)
Definition thresholds : list Qc :=
  map (fun i => Qc_of_nat i / Qc_of_nat 10) (seq 0 11).

(** The loop over the thresholds for one category: the pair of lists
    [(FP_percentages, TP_percentages)]. *)
Fixpoint roc_category (nb_classifier : NaiveBayesClassifier)
    (x_test y_test : list string) (category : string) (ths : list Qc)
  : result (list Qc * list Qc) :=
  match ths with
  | [] => Ok ([], [])
  | threshold :: ths' =>
      c ← classify nb_classifier x_test y_test threshold category;
      TP_percentage ← py_div (Qc_of_nat (TP c)) (Qc_of_nat (TP c + FN c));
      FP_percentage ← py_div (Qc_of_nat (FP c)) (Qc_of_nat (FP c + TN c));
      '(FPs, TPs) ← roc_category nb_classifier x_test y_test category ths';
      Ok (FP_percentage :: FPs, TP_percentage :: TPs)
  end.

(** [roc] up to the plotting calls: per category, the points it plots. *)
Fixpoint roc (x_test y_test : list string) (categories : list string)
    (nb_classifier : NaiveBayesClassifier)
  : result (list (string * (list Qc * list Qc))) :=
  match categories with
  | [] => Ok []
  | category :: categories' =>
      curve ← roc_category nb_classifier x_test y_test category thresholds;
      rest ← roc x_test y_test categories' nb_classifier;
      Ok ((category, curve) :: rest)
  end.

(** ** Stratified split *)

(** [l[:k]] and [l[k:]] for a Python index [k]: a negative index counts from
    the end, and both are clamped to the list. *)
Definition slice_to {A : Type} (l : list A) (k : Z) : list A :=
  if decide (0 <= k)%Z then take (Z.to_nat k) l
  else take (length l - Z.to_nat (- k)) l.

Definition slice_from {A : Type} (l : list A) (k : Z) : list A :=
  if decide (0 <= k)%Z then drop (Z.to_nat k) l
  else drop (length l - Z.to_nat (- k)) l.

(** [Series.unique()]: the distinct values, in order of first appearance. *)
Fixpoint unique_from (seen : list string) (l : list string) : list string :=
  match l with
  | [] => []
  | x :: l' => if decide (x ∈ seen) then unique_from seen l'
               else x :: unique_from (x :: seen) l'
  end.

Definition unique (l : list string) : list string := unique_from [] l.

Section Split.
(** A data frame is the list of its rows. The generator of NumPy is not part
    of the program: [rng] is the state of the global generator,
    [np_random_seed n] its state after [np.random.seed(n)] and [sample] is
    [DataFrame.sample(frac=1)], which draws from the global generator. *)
Context {row : Type} {rng : Type}.
Variable np_random_seed : Z -> rng.
Variable sample : rng -> list row -> list row * rng.
Variable stratify_column : row -> string.

(** [if random_state: np.random.seed(random_state)]. [None] and [0] are
    falsy; NumPy refuses a seed outside of [0, 2^32). *)
Definition seed_generator (g : rng) (random_state : option Z) : result rng :=
  match random_state with
  | None => Ok g
  | Some n =>
      if decide (n = 0)%Z then Ok g
      else if decide (0 <= n < 2 ^ 32)%Z then Ok (np_random_seed n)
      else Raise ValueError
  end.

(** [dropna(how='all')] removes the rows that hold no value at all. A row of
    [category_subset] holds its category, so none is removed. *)
Definition dropna_all (rows : list row) : list row := rows.

(** [pd.concat([acc, subset])] unless [subset.empty]. *)
Definition concat_nonempty (acc subset : list row) : list row :=
  match subset with
  | [] => acc
  | _ => acc ++ subset
  end.

(** The pieces of one category: the shuffled subset cut at [split_idx]. *)
Definition cut (category_subset : list row) (test_size : Qc)
  : list row * list row :=
  let split_idx :=
    py_int (Qc_of_nat (length category_subset) * (1 - test_size)) in
  (slice_to category_subset split_idx, slice_from category_subset split_idx).

Fixpoint split_loop (g : rng) (df : list row) (categories : list string)
    (test_size : Qc) (train_set test_set : list row)
  : list row * list row * rng :=
  match categories with
  | [] => (train_set, test_set, g)
  | category :: categories' =>
      let category_subset :=
        List.filter (fun r => bool_decide (stratify_column r = category))
                    df in
      let '(category_subset, g) := sample g category_subset in
      let '(train_subset, test_subset) := cut category_subset test_size in
      let train_subset := dropna_all train_subset in
      let test_subset := dropna_all test_subset in
      split_loop g df categories' test_size
        (concat_nonempty train_set train_subset)
        (concat_nonempty test_set test_subset)
  end.

(** [train_test_split]; the generator state is threaded through, as the
    calls share the global generator. *)
Definition train_test_split (g : rng) (df : list row) (test_size : Qc)
    (random_state : option Z) : result (list row * list row * rng) :=
  g ← seed_generator g random_state;
  let '(train_set, test_set, g) :=
    split_loop g df (unique (map stratify_column df)) test_size [] [] in
  let '(train_set, g) := sample g train_set in
  let '(test_set, g) := sample g test_set in
  Ok (train_set, test_set, g).
End Split.

(** ** Vocabulary of the statements *)

(** A model trained by one call of [fit] on a new classifier, on at least one
    document. *)
Definition trained_on (tok : Tokenizer) (X y : list string)
    (m : NaiveBayesClassifier) : Prop :=
  X <> [] /\ fit (init tok) X y = Ok m.

(** The tables of the model, read as the scoring code reads them:
    [count m c t] is [class_word_counts[c].get(t, 0)] and [total m c] is
    [class_word_counts[c]['__total__']]. *)
Definition table_of (m : NaiveBayesClassifier) (c : string)
  : gmap string nat :=
  default ∅ (dict_get (class_word_counts m) c).

Definition count (m : NaiveBayesClassifier) (c t : string) : nat :=
  default 0%nat (table_of m c !! t).

Definition total (m : NaiveBayesClassifier) (c : string) : nat :=
  default 0%nat (table_of m c !! TOTAL).

(** The smoothed factor of token [t] under category [c]. *)
Definition smoothed (m : NaiveBayesClassifier) (c t : string) : Qc :=
  Qc_of_nat (count m c t + 1) / Qc_of_nat (total m c + size (vocab m)).

(** The product of a list of rationals. *)
Definition product (l : list Qc) : Qc := foldr Qcmult 1 l.

(** The posterior of the claim: the prior times the product, over the tokens,
    of the smoothed factors. *)
Definition posterior_of (m : NaiveBayesClassifier) (words : list string)
    (kv : string * Qc) : string * Qc :=
  (kv.1, kv.2 * product (map (smoothed m kv.1) words)).

Definition posteriors_of (m : NaiveBayesClassifier) (words : list string)
  : dict Qc :=
  map (posterior_of m words) (class_priors m).

(** The normalized score of a category for a list of tokens:
    posterior[category] / sum of the posteriors. *)
Definition normalized (m : NaiveBayesClassifier) (words : list string)
    (category : string) : Qc :=
  default 0 (dict_get (posteriors_of m words) category)
  / py_sum (dict_values (posteriors_of m words)).

(** A text is counted positive when its score exceeds the threshold. *)
Definition positive (m : NaiveBayesClassifier) (umbral : Qc)
    (category : string) (text : string) : bool :=
  Qc_gtb (normalized m (apply (tokenizer m) text) category) umbral.

(** The confusion counts of a list of (text, true label) pairs for a
    decision [pos] on the texts. *)
Definition how_many (p : string * string -> bool)
    (docs : list (string * string)) : nat :=
  length (List.filter p docs).

Definition tally (pos : string -> bool) (category : string)
    (docs : list (string * string)) : Counts :=
  {| TP := how_many (fun d => pos d.1 && bool_decide (d.2 = category)) docs;
     FP := how_many
             (fun d => pos d.1 && negb (bool_decide (d.2 = category))) docs;
     FN := how_many
             (fun d => negb (pos d.1) && bool_decide (d.2 = category)) docs;
     TN := how_many
             (fun d => negb (pos d.1) && negb (bool_decide (d.2 = category)))
             docs |}.

Definition counts_add (a b : Counts) : Counts :=
  {| TP := TP a + TP b; FP := FP a + FP b;
     FN := FN a + FN b; TN := TN a + TN b |}.

(** The update that [classify] makes for one document. *)
Definition record_outcome (predicted actual : bool) (c : Counts) : Counts :=
  counts_add c
    {| TP := if predicted && actual then 1 else 0;
       FP := if predicted && negb actual then 1 else 0;
       FN := if negb predicted && actual then 1 else 0;
       TN := if negb predicted && negb actual then 1 else 0 |}.

Definition counts_total (c : Counts) : nat := (TP c + FP c + FN c + TN c)%nat.

(** [c] is the first key of [d] among those of maximal value. *)
Definition first_argmax (d : dict Qc) (c : string) : Prop :=
  exists i v,
    d !! i = Some (c, v)
    /\ (forall j kv, d !! j = Some kv -> kv.2 <= v)
    /\ (forall j kv, (j < i)%nat -> d !! j = Some kv -> kv.2 < v).

(** [fit_document] when no key is missing: every table that [fit] makes holds
    its ["__total__"], and the loop of [fit] is then a fold of this step. *)
Definition fit_document_total (vocab : gset string)
    (cwc : dict (gmap string nat)) (words : list string) (label : string)
  : gset string * dict (gmap string nat) :=
  let vocab := vocab ∪ list_to_set words in
  let cwc := match dict_get cwc label with
             | None => dict_set cwc label {[ TOTAL := 0%nat ]}
             | Some _ => cwc
             end in
  let table := default ∅ (dict_get cwc label) in
  let table :=
    <[TOTAL := (default 0%nat (table !! TOTAL) + length words)%nat]> table in
  (vocab, dict_set cwc label (count_words table words)).

Definition tables_have_total (cwc : dict (gmap string nat)) : Prop :=
  forall l t, dict_get cwc l = Some t -> is_Some (t !! TOTAL).

(** [fit_loop] as a left fold over the documents paired with their labels. *)
Definition fit_step (tok : Tokenizer)
    (st : gset string * dict (gmap string nat)) (doc : string * string)
  : gset string * dict (gmap string nat) :=
  fit_document_total st.1 st.2 (apply tok doc.1) doc.2.

Definition table_total (table : gmap string nat) : nat :=
  default 0%nat (table !! TOTAL).

(** The keys of [class_word_counts] after one more label. *)
Definition add_key (keys : list string) (label : string) : list string :=
  if decide (label ∈ keys) then keys else keys ++ [label].

(** The priors that the comprehension of [fit] computes from the tables. *)
Definition priors_of (cwc : dict (gmap string nat)) (total_documents : nat)
  : dict Qc :=
  map (fun kv => (kv.1, Qc_of_nat (table_total kv.2)
                        / Qc_of_nat total_documents)) cwc.


(** The labels that [fit] reads: one per document. *)
Definition training_labels (X y : list string) : list string :=
  take (length X) y.

(** What a document adds to the ["__total__"] counter of its category: its
    number of tokens, and one more for each token that is the string
    ["__total__"] itself, whose word counter is that same entry. *)
Definition occurrences (k : string) (words : list string) : nat :=
  length (List.filter (fun w => bool_decide (w = k)) words).

Definition weight (words : list string) : nat :=
  (length words + occurrences TOTAL words)%nat.



(** The floor of a rational. *)
Definition Qc_floor (x : Qc) : Z := Qfloor (this x).

(** The models the statements are tried on: the scenario of three documents
    under the tokenizer that keeps every word as it is. *)
Definition identity_tokenizer : Tokenizer :=
  {| filter := identity_filter; sanitizer := identity |}.

Definition scenario_X : list string :=
  ["stocks rally today"; "team wins championship"; "market crash fears"].
Definition scenario_y : list string := ["finance"; "sports"; "finance"].

(** [class_word_counts[label]['__total__']] *)
Definition total_of (m : NaiveBayesClassifier) (label : string) : option nat :=
  table ← dict_get (class_word_counts m) label; table !! TOTAL.

Definition model_of (r : result NaiveBayesClassifier) : NaiveBayesClassifier :=
  match r with
  | Ok m => m
  | Raise _ => init identity_tokenizer
  end.

Definition scenario_model : NaiveBayesClassifier :=
  model_of (fit (init identity_tokenizer) scenario_X scenario_y).

(** A generator and rows to run the splitter on: the state is a counter and
    a shuffle rotates by it. *)
Definition toy_seed (n : Z) : nat := Z.to_nat n.
Definition toy_sample (g : nat) (rows : list (string * string))
  : list (string * string) * nat :=
  (rotate g rows, S g).
Definition toy_df : list (string * string) :=
  [("first", "politics"); ("second", "politics")].

(** The three-category model and the test set of two documents on which the
    ROC points are asked for. *)
Definition abc_X : list string := ["a"; "b"; "c"].
Definition abc_y : list string := ["A"; "B"; "C"].

(** ** Words: filters and sanitizers *)


Fixpoint string_map (f : ascii -> ascii) (s : string) : string :=
  match s with
  | EmptyString => EmptyString
  | String c s' => String (f c) (string_map f s')
  end.


Definition between (lo hi n : nat) : bool := ((lo <=? n) && (n <=? hi))%nat.



(** The lower case of a code point below 256. *)
Definition lower_char (c : ascii) : ascii :=
  let n := nat_of_ascii c in
  if between 65 90 n || between 192 214 n || between 216 222 n
  then ascii_of_nat (n + 32) else c.

(** [str.lower()] *)
Definition lower (s : string) : string := string_map lower_char s.





Definition to_lower (word : string) : string := lower word.



Definition custom_filter (word : string) : bool := true.


(** [NaiveBayesClassifier._tokenize] *)
Definition _tokenize (text : string) : list string := split (lower text).

(** The characters of a string. *)
Definition chars (s : string) : list ascii := String.list_ascii_of_string s.

(** ** Reading the count tables *)

(** [class_word_counts[l][k]], 0 when either key is missing. *)
Definition cell (cwc : dict (gmap string nat)) (l k : string) : nat :=
  default 0%nat (dict_get cwc l ≫= fun table => table !! k).

(** What the tokens of one document add to the entry [k] of the table of
    its label: the occurrences of [k], and for the key ["__total__"] the
    number of tokens as well. *)
Definition contribution (k : string) (words : list string) : nat :=
  if decide (k = TOTAL) then weight words else occurrences k words.

(** The sum of the contributions of the documents labelled [c]. *)
Definition counted (tok : Tokenizer) (c k : string)
    (docs : list (string * string)) : nat :=
  sum_list (map (fun d => if decide (d.2 = c)
                          then contribution k (apply tok d.1) else 0%nat)
                docs).

(** ** Test sets for the ROC points *)


(** A rate: a rational between 0 and 1. *)
Definition is_rate (q : Qc) : Prop := 0 <= q /\ q <= 1.

(** ** The one-vs-rest confusion matrix *)

(** The [if/elif] chain of [compute_confusion_matrix] on the counts of one
    category. *)
Definition cm_count (true' pred category : string) (values : Counts)
  : Counts :=
  if bool_decide (true' = category) && bool_decide (pred = category)
  then {| TP := S (TP values); FP := FP values;
          FN := FN values; TN := TN values |}
  else if negb (bool_decide (true' = category))
          && bool_decide (pred = category)
  then {| TP := TP values; FP := S (FP values);
          FN := FN values; TN := TN values |}
  else if bool_decide (true' = category)
          && negb (bool_decide (pred = category))
  then {| TP := TP values; FP := FP values;
          FN := S (FN values); TN := TN values |}
  else if negb (bool_decide (true' = category))
          && negb (bool_decide (pred = category))
  then {| TP := TP values; FP := FP values;
          FN := FN values; TN := S (TN values) |}
  else values.

(** [for category in categories] for one pair (true, pred). *)
Fixpoint cm_categories (true' pred : string) (categories : list string)
    (cm : dict Counts) : result (dict Counts) :=
  match categories with
  | [] => Ok cm
  | category :: categories' =>
      values ← dict_item cm category;
      cm_categories true' pred categories'
        (dict_set cm category (cm_count true' pred category values))
  end.

(** [for true, pred in zip(y_true, y_pred)] *)
Fixpoint cm_pairs (pairs : list (string * string)) (categories : list string)
    (cm : dict Counts) : result (dict Counts) :=
  match pairs with
  | [] => Ok cm
  | (true', pred) :: pairs' =>
      cm ← cm_categories true' pred categories cm;
      cm_pairs pairs' categories cm
  end.

Definition compute_confusion_matrix (y_true y_pred categories : list string)
  : result (dict Counts) :=
  let cm := foldl (fun cm category =>
                     dict_set cm category
                       {| TP := 0; FP := 0; FN := 0; TN := 0 |})
                  [] categories in
  cm_pairs (zip y_true y_pred) categories cm.

(** [values_matrix] up to the printing: the metrics of the confusion
    matrix. *)
Definition values_matrix (y_test y_pred categories : list string)
  : result (dict Metrics) :=
  confusion_matrix ← compute_confusion_matrix y_test y_pred categories;
  Ok (compute_metrics confusion_matrix).

(** The counts [n] times over. *)
Definition counts_scale (n : nat) (c : Counts) : Counts :=
  {| TP := n * TP c; FP := n * FP c; FN := n * FN c; TN := n * TN c |}.

(** The one-vs-rest counts of [category] over pairs (true, predicted). *)
Definition one_vs_rest (category : string) (pairs : list (string * string))
  : Counts :=
  {| TP := how_many (fun p => bool_decide (p.1 = category)
                              && bool_decide (p.2 = category)) pairs;
     FP := how_many (fun p => negb (bool_decide (p.1 = category))
                              && bool_decide (p.2 = category)) pairs;
     FN := how_many (fun p => bool_decide (p.1 = category)
                              && negb (bool_decide (p.2 = category))) pairs;
     TN := how_many (fun p => negb (bool_decide (p.1 = category))
                              && negb (bool_decide (p.2 = category)))
             pairs |}.

Definition cm_zero : Counts := {| TP := 0; FP := 0; FN := 0; TN := 0 |}.

(** ** The callers of the splitter *)

(** [split_train_test]: [RANDOM_STATE = 42], [test_size=0.2]. *)
Definition split_train_test {row rng : Type} (np_random_seed : Z -> rng)
    (sample : rng -> list row -> list row * rng) (categoria : row -> string)
    (g : rng) (df : list row) : result (list row * list row * rng) :=
  train_test_split np_random_seed sample categoria g df
    (Qc_of_nat 2 / Qc_of_nat 10) (Some 42%Z).

(** [extract_categories] *)
Definition extract_categories {row : Type} (categoria : row -> string)
    (df : list row) : list string :=
  unique (map categoria df).

(** [split_x_y] *)
Definition split_x_y {row : Type} (titular categoria : row -> string)
    (df : list row) : list string * list string :=
  (map titular df, map categoria df).

(** The rows of a frame whose stratification column holds [c]. *)
Definition rows_of {row : Type} (stratify_column : row -> string) (c : string)
    (df : list row) : list row :=
  List.filter (fun r => bool_decide (stratify_column r = c)) df.

(** The number of rows of category [c] that go to train: the floor of
    [count * (1 - test_size)]. *)
Definition train_share {row : Type} (stratify_column : row -> string)
    (test_size : Qc) (c : string) (df : list row) : nat :=
  Z.to_nat (Qc_floor (Qc_of_nat (length (rows_of stratify_column c df))
                      * (1 - test_size))).

(** ** The confusion grid of [show_matrix] and [macroaverage_values_matrix] *)

(** A value of NumPy's [int64]: arithmetic wraps around. *)
Definition int64 (z : Z) : Z := ((z + 2 ^ 63) mod 2 ^ 64 - 2 ^ 63)%Z.

(** [{category: i for i, category in enumerate(categories)}]: a category
    listed twice keeps its place and takes its last index. *)
Fixpoint index_from (i : nat) (categories : list string) (d : dict nat)
  : dict nat :=
  match categories with
  | [] => d
  | category :: categories' =>
      index_from (S i) categories' (dict_set d category i)
  end.

Definition category_to_index (categories : list string) : dict nat :=
  index_from 0 categories [].

(** [np.zeros((n, m), dtype=int)]: the list of the rows. *)
Definition np_zeros (n m : nat) : list (list Z) :=
  replicate n (replicate m 0%Z).

(** [confusion_matrix[i, j] += 1]; an index outside of the grid raises. *)
Definition grid_incr (confusion_matrix : list (list Z)) (i j : nat)
  : result (list (list Z)) :=
  row ← of_option IndexError (confusion_matrix !! i);
  v ← of_option IndexError (row !! j);
  Ok (<[i := <[j := int64 (v + 1)]> row]> confusion_matrix).

(** [for true_label, pred_label in zip(y_test, y_pred)] *)
Fixpoint grid_pairs (category_to_index : dict nat)
    (pairs : list (string * string)) (confusion_matrix : list (list Z))
  : result (list (list Z)) :=
  match pairs with
  | [] => Ok confusion_matrix
  | (true_label, pred_label) :: pairs' =>
      true_index ← dict_item category_to_index true_label;
      pred_index ← dict_item category_to_index pred_label;
      confusion_matrix ← grid_incr confusion_matrix true_index pred_index;
      grid_pairs category_to_index pairs' confusion_matrix
  end.

(** The grid that [show_matrix] (twice) and [macroaverage_values_matrix]
    build with the same lines. *)
Definition confusion_grid (y_test y_pred categories : list string)
  : result (list (list Z)) :=
  let matrix_size := length categories in
  let confusion_matrix := np_zeros matrix_size matrix_size in
  grid_pairs (category_to_index categories) (zip y_test y_pred)
    confusion_matrix.

(** [sum(...)] of Python over [int64] values. *)
Definition sum_int64 (l : list Z) : Z :=
  foldl (fun acc v => int64 (acc + v)) 0%Z l.

(** [np.sum(confusion_matrix)] *)
Definition np_sum (confusion_matrix : list (list Z)) : Z :=
  sum_int64 (concat confusion_matrix).

(** [confusion_matrix[:, i]] *)
Definition column (confusion_matrix : list (list Z)) (i : nat) : list Z :=
  omap (fun row => row !! i) confusion_matrix.

(** The counts of the category of index [i] in the loop of
    [macroaverage_values_matrix]. *)
Definition class_counts (confusion_matrix : list (list Z)) (i : nat)
  : result (Z * Z * Z * Z) :=
  row ← of_option IndexError (confusion_matrix !! i);
  TP ← of_option IndexError (row !! i);
  let FP := int64 (sum_int64 (column confusion_matrix i) - TP) in
  let FN := int64 (sum_int64 row - TP) in
  let TN := int64 (np_sum confusion_matrix - int64 (int64 (TP + FP) + FN)) in
  Ok (TP, FP, FN, TN).

(** [for i, category in enumerate(categories)]: the counts of every
    category, in turn. *)
Fixpoint counts_from (i : nat) (categories : list string)
    (confusion_matrix : list (list Z)) : result (list (Z * Z * Z * Z)) :=
  match categories with
  | [] => Ok []
  | _ :: categories' =>
      c ← class_counts confusion_matrix i;
      cs ← counts_from (S i) categories' confusion_matrix;
      Ok (c :: cs)
  end.

(** The counts [macroaverage_values_matrix] derives its rates from. *)
Definition macroaverage_counts (y_test y_pred categories : list string)
  : result (list (Z * Z * Z * Z)) :=
  confusion_matrix ← confusion_grid y_test y_pred categories;
  counts_from 0 categories confusion_matrix.

(** The grid has [n] rows of [n] cells. *)
Definition is_grid (n : nat) (m : list (list Z)) : Prop :=
  length m = n /\ Forall (fun row => length row = n) m.

(** Every cell lies between [0] and [b]. *)
Definition cells_within (b : Z) (m : list (list Z)) : Prop :=
  Forall (Forall (fun v => 0 <= v <= b)%Z) m.

Definition sumZ (l : list Z) : Z := foldr Z.add 0%Z l.

(** Both labels of the pair are listed. *)
Definition listed (categories : list string) (p : string * string) : Prop :=
  p.1 ∈ categories /\ p.2 ∈ categories.

(** The counts of a category as integers. *)
Definition counts_Z (c : Counts) : Z * Z * Z * Z :=
  (Z.of_nat (TP c), Z.of_nat (FP c), Z.of_nat (FN c), Z.of_nat (TN c)).

(** The cell of row [i] and column [j], the sum of row [i]. *)
Definition grid_cell (m : list (list Z)) (i j : nat) : Z :=
  default 0%Z (row ← m !! i; row !! j).

Definition row_sum (m : list (list Z)) (i : nat) : Z :=
  sumZ (default [] (m !! i)).

(** The pairs whose labels are [a] and [b]; those whose true label, or
    predicted label, is [c]. *)
Definition pair_count (a b : string) (pairs : list (string * string)) : Z :=
  Z.of_nat (how_many (fun p => bool_decide (p.1 = a) && bool_decide (p.2 = b))
              pairs).

Definition true_count (c : string) (pairs : list (string * string)) : Z :=
  Z.of_nat (how_many (fun p => bool_decide (p.1 = c)) pairs).

Definition pred_count (c : string) (pairs : list (string * string)) : Z :=
  Z.of_nat (how_many (fun p => bool_decide (p.2 = c)) pairs).

(** * Properties *)

(** A closed goal [trained_on tok X y m] is settled by running [fit]. *)
Ltac run_fit := split; [discriminate | vm_compute; reflexivity].

(** ** Counts as rationals *)

Lemma Qc_of_nat_0 : Qc_of_nat 0 = 0.
Proof. exact Z2Qc_inj_0. Qed.


Lemma Qc_of_nat_nonneg (n : nat) : 0 <= Qc_of_nat n.
Proof.
  unfold Qc_of_nat. rewrite <- Z2Qc_inj_0.
  apply (proj1 (Z2Qc_inj_le 0 (Z.of_nat n))). apply Nat2Z.is_nonneg.
Qed.

Lemma Qc_of_nat_pos (n : nat) : (0 < n)%nat -> 0 < Qc_of_nat n.
Proof.
  intros Hn. unfold Qc_of_nat. rewrite <- Z2Qc_inj_0.
  apply (proj1 (Z2Qc_inj_lt 0 (Z.of_nat n))).
  apply (proj1 (Nat2Z.inj_lt 0 n)). exact Hn.
Qed.

Lemma Qc_of_nat_eq_0 (n : nat) : Qc_of_nat n = 0 <-> n = 0%nat.
Proof.
  unfold Qc_of_nat. rewrite <- Z2Qc_inj_0, Z2Qc_inj_iff.
  split; [apply (Nat2Z.inj n 0)|intros ->; reflexivity].
Qed.

Lemma py_div_ok (a b : Qc) : b <> 0 -> py_div a b = Ok (a / b).
Proof.
  intros Hb. unfold py_div. destruct (decide (b = 0)); [contradiction|].
  reflexivity.
Qed.

Lemma py_div_inv (a b q : Qc) : py_div a b = Ok q -> b <> 0 /\ q = a / b.
Proof.
  unfold py_div. destruct (decide (b = 0)); [discriminate|].
  intros [= <-]. split; [assumption|reflexivity].
Qed.

Lemma Qc_gtb_true (a b : Qc) : Qc_gtb a b = true <-> b < a.
Proof. unfold Qc_gtb. apply bool_decide_eq_true. Qed.

Lemma Qc_gtb_false (a b : Qc) : Qc_gtb a b = false <-> a <= b.
Proof.
  unfold Qc_gtb. rewrite bool_decide_eq_false. symmetry. apply Qcle_ngt.
Qed.

Lemma Qc_sub_nonneg (a b : Qc) : b <= a -> 0 <= a - b.
Proof.
  intros Hab. apply (Qcplus_le_mono_r _ _ b).
  replace (a - b + b) with a by ring. rewrite Qcplus_0_l. exact Hab.
Qed.


(** ** The worked scenario *)

Lemma scenario_fit :
  exists m, fit (init identity_tokenizer) scenario_X scenario_y = Ok m
    /\ total_of m "finance" = Some 6%nat
    /\ total_of m "sports" = Some 3%nat
    /\ size (vocab m) = 9%nat.
Proof. eexists. split; [reflexivity|]. vm_compute. auto. Qed.

(** C6, as amended: after fitting the three documents of the scenario with the
    identity filter and sanitizer, the total of "finance" is 6, the total of
    "sports" is 3, and the vocabulary holds 9 distinct tokens. *)
Theorem scenario_totals_and_vocab :
  exists m, fit (init identity_tokenizer) scenario_X scenario_y = Ok m
    /\ total_of m "finance" = Some 6%nat
    /\ total_of m "sports" = Some 3%nat
    /\ vocab m = list_to_set
         ["stocks"; "rally"; "today"; "team"; "wins"; "championship";
          "market"; "crash"; "fears"]
    /\ size (vocab m) = 9%nat.
Proof.
  eexists. split; [reflexivity|].
  repeat split; vm_compute; reflexivity.
Qed.

(** C6, as stated, fails: the vocabulary of the scenario does not hold 8
    tokens. *)
Lemma scenario_vocab_is_not_8 :
  ~ (exists m, fit (init identity_tokenizer) scenario_X scenario_y = Ok m
       /\ total_of m "finance" = Some 6%nat
       /\ total_of m "sports" = Some 3%nat
       /\ size (vocab m) = 8%nat).
Proof.
  intros (m & Hfit & _ & _ & Hsize).
  destruct scenario_fit as (m' & Hfit' & _ & _ & Hsize').
  rewrite Hfit in Hfit'. injection Hfit' as ->. lia.
Qed.

(** ** [fit] on zero documents *)

(** C2, as amended: called with zero documents on a new classifier, [fit]
    returns normally and leaves the vocabulary, the count tables and the priors
    empty; with no category there is no division to make. *)
Theorem fit_zero_documents_returns (tok : Tokenizer) (y : list string) :
  fit (init tok) [] y = Ok (init tok).
Proof. reflexivity. Qed.

(** C2, as stated, fails: on zero documents [fit] raises nothing. *)
Lemma fit_zero_documents_no_error :
  fit (init identity_tokenizer) [] [] = Ok (init identity_tokenizer)
  /\ ~ (exists e, fit (init identity_tokenizer) [] [] = Raise e).
Proof. split; [reflexivity|]. intros [e He]. discriminate He. Qed.

(** A division by zero needs a category to divide for: it arises when a
    classifier that already holds one is fitted again on zero documents. *)
Lemma fit_zero_documents_again (m : NaiveBayesClassifier) label table n rest :
  class_word_counts m = (label, table) :: rest ->
  table !! TOTAL = Some n ->
  fit m [] [] = Raise ZeroDivisionError.
Proof.
  intros Hcwc Htotal. unfold fit. simpl. rewrite Hcwc. simpl.
  rewrite Htotal. reflexivity.
Qed.

(** ** ROC points of a category without test documents *)

(** In [compute_metrics] every division is guarded. *)
Lemma metrics_of_zero_denominators (v : Counts) :
  ((TP v + FP v + TN v + FN v = 0)%nat -> Accuracy (metrics_of v) = 0)
  /\ ((TP v + FP v = 0)%nat -> Precision (metrics_of v) = 0)
  /\ ((TP v + FN v = 0)%nat -> Recall (metrics_of v) = 0)
  /\ (Precision (metrics_of v) + Recall (metrics_of v) = 0 ->
      F1_Score (metrics_of v) = 0).
Proof.
  unfold metrics_of; simpl. repeat split.
  - intros ->. reflexivity.
  - intros ->. reflexivity.
  - intros ->. reflexivity.
  - intros ->. reflexivity.
Qed.

(** A category with an all-zero row gets the metrics 0, no exception. *)
Lemma compute_metrics_all_zero (category : string) :
  compute_metrics [(category, {| TP := 0; FP := 0; FN := 0; TN := 0 |})]
  = [(category,
      {| Accuracy := 0; Precision := 0; Recall := 0; F1_Score := 0 |})].
Proof. reflexivity. Qed.

(** C5: the rates of [roc] are not guarded. With the classifier trained on
    one document per category "A", "B", "C" and a test set without "C", the
    first rate asked for "C" divides by [TP + FN = 0] and [roc] raises. *)
Theorem roc_absent_category_raises :
  exists m, fit (init identity_tokenizer) abc_X abc_y = Ok m
    /\ classify m ["a"; "b"] ["A"; "B"] 0 "C"
       = Ok {| TP := 0; FP := 2; FN := 0; TN := 0 |}
    /\ roc ["a"; "b"] ["A"; "B"] ["A"; "B"; "C"] m = Raise ZeroDivisionError.
Proof.
  eexists. split; [reflexivity|]. split; vm_compute; reflexivity.
Qed.

(** ** The stratified splitter and its seed *)

Section SplitFacts.
Context {row : Type} {rng : Type}.
Variable np_random_seed : Z -> rng.
Variable sample : rng -> list row -> list row * rng.
Variable stratify_column : row -> string.

(** After a truthy seed the generator no longer depends on its past. *)
Lemma seed_generator_truthy (g1 g2 : rng) (n : Z) :
  n <> 0%Z ->
  seed_generator np_random_seed g1 (Some n)
  = seed_generator np_random_seed g2 (Some n).
Proof.
  intros Hn. unfold seed_generator.
  destruct (decide (n = 0%Z)) as [|_]; [contradiction|]. reflexivity.
Qed.

(** With a seed other than 0 the split is a function of its arguments:
    whatever the generator did before, the outcome is the same. *)
Lemma train_test_split_seeded (g1 g2 : rng) (df : list row)
    (test_size : Qc) (n : Z) :
  n <> 0%Z ->
  train_test_split np_random_seed sample stratify_column g1 df test_size
    (Some n)
  = train_test_split np_random_seed sample stratify_column g2 df test_size
    (Some n).
Proof.
  intros Hn. unfold train_test_split.
  rewrite (seed_generator_truthy g1 g2 n Hn). reflexivity.
Qed.

(** On a non-negative number [int] is the floor. *)
Lemma py_int_floor (x : Qc) :
  0 <= x -> (0 <= py_int x)%Z /\ py_int x = Qc_floor x.
Proof.
  intros Hx. unfold py_int, Qc_floor, Qfloor. destruct x as [[n d] Hc]. simpl.
  unfold Qcle, Qle in Hx. simpl in Hx. rewrite Z.mul_1_r in Hx.
  split.
  - apply Z.quot_pos; [exact Hx|reflexivity].
  - apply Z.quot_div_nonneg; [exact Hx|reflexivity].
Qed.

(** For a test fraction between 0 and 1 the cut point is the floor of
    [count * (1 - test_fraction)]: the head of the shuffled subset goes to
    train, its tail to test. *)
Lemma cut_floor (category_subset : list row) (test_size : Qc) :
  0 <= test_size -> test_size <= 1 ->
  let k :=
    Z.to_nat (Qc_floor (Qc_of_nat (length category_subset) * (1 - test_size)))
  in cut category_subset test_size
     = (take k category_subset, drop k category_subset).
Proof.
  intros H0 H1 k. unfold cut.
  assert (Hnn : 0 <= Qc_of_nat (length category_subset) * (1 - test_size)).
  { apply Qcmult_nonneg_nonneg.
    - apply Qc_of_nat_nonneg.
    - apply Qc_sub_nonneg. exact H1. }
  destruct (py_int_floor _ Hnn) as [Hk Hfloor].
  unfold slice_to, slice_from.
  destruct (decide _) as [_|Hneg]; [|contradiction].
  subst k. rewrite <- Hfloor. reflexivity.
Qed.
End SplitFacts.

(** Two calls in a row with seed 0, on a generator whose shuffles differ from
    one state to the next: the second call starts where the first stopped and
    splits differently. *)
Lemma toy_split_seed_zero_differs :
  exists train1 test1 g1 train2 test2 g2,
    train_test_split toy_seed toy_sample snd 1%nat toy_df
      (Qc_of_nat 1 / Qc_of_nat 2) (Some 0%Z) = Ok (train1, test1, g1)
    /\ train_test_split toy_seed toy_sample snd g1 toy_df
      (Qc_of_nat 1 / Qc_of_nat 2) (Some 0%Z) = Ok (train2, test2, g2)
    /\ train1 <> train2.
Proof.
  do 6 eexists. split; [vm_compute; reflexivity|].
  split; [vm_compute; reflexivity|]. discriminate.
Qed.

(** C7: seed 0 is read as no seed. [if random_state:] is false for 0, so the
    call does not seed the generator and is, for every generator, state, rows
    and test fraction, the call without a seed: its outcome follows the state
    the generator was left in. On the counter generator, two calls in a row
    with seed 0 and the same arguments split the same two rows
    differently. *)
Theorem train_test_split_seed_zero_unseeded :
  (forall (row rng : Type) (np_random_seed : Z -> rng)
          (sample : rng -> list row -> list row * rng)
          (stratify_column : row -> string)
          (g : rng) (df : list row) (test_size : Qc),
     train_test_split np_random_seed sample stratify_column g df test_size
       (Some 0%Z)
     = train_test_split np_random_seed sample stratify_column g df test_size
       None)
  /\ (exists train1 test1 g1 train2 test2 g2,
        train_test_split toy_seed toy_sample snd 1%nat toy_df
          (Qc_of_nat 1 / Qc_of_nat 2) (Some 0%Z) = Ok (train1, test1, g1)
        /\ train_test_split toy_seed toy_sample snd g1 toy_df
          (Qc_of_nat 1 / Qc_of_nat 2) (Some 0%Z) = Ok (train2, test2, g2)
        /\ train1 <> train2).
Proof.
  split.
  - intros row rng np_random_seed sample stratify_column g df test_size.
    unfold train_test_split, seed_generator.
    destruct (decide (0 = 0)%Z) as [_|Hne]; [reflexivity|].
    exfalso. apply Hne. reflexivity.
  - exact toy_split_seed_zero_differs.
Qed.

(** With seed 42 both calls give the same split. *)
Lemma toy_split_seed_42_same :
  exists train test g1 g2,
    train_test_split toy_seed toy_sample snd 1%nat toy_df
      (Qc_of_nat 1 / Qc_of_nat 2) (Some 42%Z) = Ok (train, test, g1)
    /\ train_test_split toy_seed toy_sample snd g1 toy_df
      (Qc_of_nat 1 / Qc_of_nat 2) (Some 42%Z) = Ok (train, test, g2).
Proof.
  do 4 eexists. split; vm_compute; reflexivity.
Qed.

(** ** Insertion-ordered dictionaries *)

Section DictFacts.
Context {V : Type}.
Implicit Types (d : dict V) (k : string) (v : V).

Lemma dict_get_None d k : dict_get d k = None <-> k ∉ dict_keys d.
Proof.
  unfold dict_keys. induction d as [|[k' v'] d IH]; simpl.
  - split; [intros _; apply not_elem_of_nil|reflexivity].
  - rewrite not_elem_of_cons. destruct (decide (k' = k)) as [->|Hne].
    + split; [discriminate|]. intros [Hk _]. contradiction.
    + rewrite IH. split; [intros Hk; split; [congruence|exact Hk]|].
      intros [_ Hk]. exact Hk.
Qed.

Lemma dict_get_is_Some d k : is_Some (dict_get d k) <-> k ∈ dict_keys d.
Proof.
  rewrite <- not_eq_None_Some, dict_get_None.
  split; [apply dec_stable|]. intros Hin Hnot. contradiction.
Qed.

Lemma dict_get_set_eq d k v : dict_get (dict_set d k v) k = Some v.
Proof.
  induction d as [|[k' v'] d IH]; simpl.
  - rewrite decide_True; reflexivity.
  - destruct (decide (k' = k)) as [->|Hne]; simpl.
    + rewrite decide_True; reflexivity.
    + rewrite decide_False; assumption.
Qed.

Lemma dict_get_set_ne d k k' v :
  k <> k' -> dict_get (dict_set d k v) k' = dict_get d k'.
Proof.
  intros Hne. induction d as [|[k0 v0] d IH]; simpl.
  - rewrite decide_False; [reflexivity|assumption].
  - destruct (decide (k0 = k)) as [->|Hne0]; simpl.
    + rewrite !decide_False; [reflexivity|assumption|assumption].
    + destruct (decide (k0 = k')); [reflexivity|exact IH].
Qed.

Lemma dict_set_new d k v :
  dict_get d k = None -> dict_set d k v = d ++ [(k, v)].
Proof.
  induction d as [|[k' v'] d IH]; simpl; [reflexivity|].
  destruct (decide (k' = k)); [discriminate|].
  intros Hd. rewrite IH; [reflexivity|exact Hd].
Qed.

Lemma dict_keys_set_old d k v :
  is_Some (dict_get d k) -> dict_keys (dict_set d k v) = dict_keys d.
Proof.
  unfold dict_keys. induction d as [|[k' v'] d IH]; simpl.
  - intros [x Hx]. discriminate.
  - destruct (decide (k' = k)); csimpl; [reflexivity|].
    intros Hd. f_equal. apply IH. exact Hd.
Qed.

Lemma dict_keys_set_new d k v :
  dict_get d k = None -> dict_keys (dict_set d k v) = dict_keys d ++ [k].
Proof.
  intros Hd. rewrite dict_set_new by exact Hd.
  unfold dict_keys. rewrite fmap_app. reflexivity.
Qed.

Lemma dict_set_set d k v1 v2 :
  dict_set (dict_set d k v1) k v2 = dict_set d k v2.
Proof.
  induction d as [|[k' v'] d IH]; simpl.
  - rewrite decide_True; reflexivity.
  - destruct (decide (k' = k)) as [->|Hne]; simpl.
    + rewrite decide_True; reflexivity.
    + rewrite decide_False by assumption. f_equal. exact IH.
Qed.

Lemma dict_keys_set_NoDup d k v :
  NoDup (dict_keys d) -> NoDup (dict_keys (dict_set d k v)).
Proof.
  intros Hnd. destruct (dict_get d k) eqn:Hd.
  - rewrite dict_keys_set_old; [exact Hnd|]. rewrite Hd. eauto.
  - rewrite dict_keys_set_new by exact Hd.
    apply NoDup_app. split; [exact Hnd|]. split.
    + intros x Hx Hx'. apply list_elem_of_singleton in Hx'. subst x.
      apply dict_get_None in Hd. contradiction.
    + apply NoDup_singleton.
Qed.

(** In a dictionary without repeated key every entry is the one found. *)
Lemma dict_get_elem_of d k v :
  NoDup (dict_keys d) -> (k, v) ∈ d -> dict_get d k = Some v.
Proof.
  unfold dict_keys. induction d as [|[k' v'] d IH]; simpl.
  - intros _ Hin. apply elem_of_nil in Hin. contradiction.
  - intros Hnd Hin. apply NoDup_cons in Hnd as [Hk' Hnd].
    apply elem_of_cons in Hin as [[= -> ->]|Hin].
    + rewrite decide_True; reflexivity.
    + destruct (decide (k' = k)) as [->|Hne].
      * exfalso. apply Hk'. apply list_elem_of_fmap.
        exists (k, v). split; [reflexivity|exact Hin].
      * apply IH; assumption.
Qed.

Lemma dict_get_Some_elem_of d k v : dict_get d k = Some v -> (k, v) ∈ d.
Proof.
  induction d as [|[k' v'] d IH]; simpl; [discriminate|].
  destruct (decide (k' = k)) as [->|Hne].
  - intros [= ->]. apply elem_of_cons. left. reflexivity.
  - intros Hd. apply elem_of_cons. right. apply IH. exact Hd.
Qed.
End DictFacts.

(** ** The tables built by [fit] *)

Lemma count_word_lookup (table : gmap string nat) (w k : string) :
  count_word table w !! k
  = if decide (k = w) then Some (S (default 0%nat (table !! w)))
    else table !! k.
Proof.
  unfold count_word. destruct (decide (k = w)) as [->|Hne].
  - rewrite lookup_insert_eq. destruct (table !! w) eqn:Hw.
    + rewrite Hw. reflexivity.
    + rewrite lookup_insert_eq. reflexivity.
  - rewrite lookup_insert_ne by congruence.
    destruct (table !! w); [reflexivity|].
    rewrite lookup_insert_ne by congruence. reflexivity.
Qed.

Lemma count_words_lookup (words : list string) (table : gmap string nat)
    (k : string) :
  default 0%nat (count_words table words !! k)
  = (default 0%nat (table !! k) + occurrences k words)%nat
  /\ (is_Some (table !! k) -> is_Some (count_words table words !! k)).
Proof.
  unfold count_words, occurrences.
  revert table. induction words as [|w words IH]; intros table; simpl.
  - split; [lia|tauto].
  - destruct (IH (count_word table w)) as [IHv IHs].
    rewrite IHv. rewrite count_word_lookup in IHs |- *.
    destruct (decide (k = w)) as [->|Hne].
    + rewrite bool_decide_eq_true_2 by reflexivity. simpl.
      split; [lia|]. intros _. apply IHs. eauto.
    + rewrite bool_decide_eq_false_2 by congruence.
      split; [reflexivity|exact IHs].
Qed.

Section FitDocument.
Variables (v : gset string) (c : dict (gmap string nat)).
Variables (words : list string) (label : string).


Lemma fit_document_total_other (l : string) :
  l <> label ->
  dict_get (fit_document_total v c words label).2 l = dict_get c l.
Proof.
  intros Hne. unfold fit_document_total. simpl.
  rewrite dict_get_set_ne by congruence.
  destruct (dict_get c label); [reflexivity|].
  apply dict_get_set_ne. congruence.
Qed.

Lemma fit_document_total_label :
  exists table,
    dict_get (fit_document_total v c words label).2 label = Some table
    /\ table !! TOTAL
       = Some (default 0%nat (table_total <$> dict_get c label)
               + weight words)%nat.
Proof.
  unfold fit_document_total. simpl. eexists. split; [apply dict_get_set_eq|].
  set (table0 := default ∅ (dict_get _ label)).
  assert (Htable0 : table_total table0
                    = default 0%nat (table_total <$> dict_get c label)).
  { subst table0. destruct (dict_get c label) as [t|] eqn:Hc.
    - rewrite Hc. reflexivity.
    - rewrite dict_get_set_eq. reflexivity. }
  set (table1 := <[TOTAL := _]> table0).
  destruct (count_words_lookup words table1 TOTAL) as [Hv Hs].
  destruct Hs as [n Hn].
  { subst table1. rewrite lookup_insert_eq. eauto. }
  rewrite Hn in Hv |- *. simpl in Hv. f_equal. rewrite Hv.
  subst table1. rewrite lookup_insert_eq. simpl.
  fold (table_total table0). rewrite Htable0. unfold weight. lia.
Qed.

Lemma fit_document_total_keys :
  dict_keys (fit_document_total v c words label).2
  = if decide (label ∈ dict_keys c) then dict_keys c
    else dict_keys c ++ [label].
Proof.
  unfold fit_document_total. simpl.
  destruct (decide (label ∈ dict_keys c)) as [Hin|Hnot].
  - apply dict_get_is_Some in Hin as Hsome. destruct Hsome as [t Ht].
    rewrite Ht. apply dict_keys_set_old. rewrite Ht. eauto.
  - apply dict_get_None in Hnot as Hnone. rewrite Hnone.
    rewrite dict_keys_set_old by (rewrite dict_get_set_eq; eauto).
    apply dict_keys_set_new. exact Hnone.
Qed.
End FitDocument.

(** One document replaces the table of its label by a table whose total grew
    by the weight of the document. *)
Lemma fit_document_total_as_set (v : gset string) (c : dict (gmap string nat))
    (words : list string) (label : string) :
  exists table,
    (fit_document_total v c words label).2 = dict_set c label table
    /\ table_total table
       = (default 0%nat (table_total <$> dict_get c label) + weight words)%nat
    /\ is_Some (table !! TOTAL).
Proof.
  destruct (fit_document_total_label v c words label) as (table & Hget & Htot).
  exists table. split; [|split].
  - unfold fit_document_total in Hget |- *. simpl in Hget |- *.
    rewrite dict_get_set_eq in Hget. injection Hget as Hget.
    rewrite Hget. destruct (dict_get c label); [reflexivity|].
    apply dict_set_set.
  - unfold table_total at 1. rewrite Htot. reflexivity.
  - rewrite Htot. eauto.
Qed.

Lemma fit_document_total_tables (v : gset string)
    (c : dict (gmap string nat)) (words : list string) (label : string) :
  tables_have_total c ->
  tables_have_total (fit_document_total v c words label).2.
Proof.
  intros Hc l t.
  destruct (fit_document_total_as_set v c words label)
    as (table & -> & _ & Htable).
  destruct (decide (label = l)) as [->|Hne].
  - rewrite dict_get_set_eq. intros [= <-]. exact Htable.
  - rewrite dict_get_set_ne by exact Hne. apply Hc.
Qed.

(** On tables that hold their totals the step of [fit] raises nothing. *)
Lemma fit_document_eq (v : gset string) (c : dict (gmap string nat))
    (words : list string) (label : string) :
  tables_have_total c ->
  fit_document v c words label = Ok (fit_document_total v c words label).
Proof.
  intros Hc. unfold fit_document, fit_document_total, dict_item.
  destruct (dict_get c label) as [t|] eqn:Hget.
  - rewrite Hget. simpl. destruct (Hc label t Hget) as [n Hn].
    rewrite Hn. reflexivity.
  - rewrite dict_get_set_eq. reflexivity.
Qed.


Lemma unique_from_ext (l s1 s2 : list string) :
  (forall x, x ∈ s1 <-> x ∈ s2) -> unique_from s1 l = unique_from s2 l.
Proof.
  revert s1 s2. induction l as [|x l IH]; intros s1 s2 Hs; simpl.
  - reflexivity.
  - destruct (decide (x ∈ s1)) as [H1|H1], (decide (x ∈ s2)) as [H2|H2].
    + apply IH. exact Hs.
    + apply Hs in H1. contradiction.
    + apply Hs in H2. contradiction.
    + f_equal. apply IH. intros z. rewrite !elem_of_cons, Hs. reflexivity.
Qed.

Lemma foldl_add_key (l ks : list string) :
  foldl add_key ks l = ks ++ unique_from ks l.
Proof.
  revert ks. induction l as [|x l IH]; intros ks; simpl.
  - rewrite app_nil_r. reflexivity.
  - unfold add_key at 2. destruct (decide (x ∈ ks)) as [Hin|Hnot].
    + apply IH.
    + rewrite IH, <- app_assoc. simpl. do 2 f_equal.
      apply unique_from_ext. intros z.
      rewrite elem_of_app, !elem_of_cons, elem_of_nil. tauto.
Qed.

Lemma elem_of_unique_from (l seen : list string) (x : string) :
  x ∈ unique_from seen l <-> x ∈ l /\ x ∉ seen.
Proof.
  revert seen. induction l as [|a l IH]; intros seen; simpl.
  - rewrite elem_of_nil. tauto.
  - destruct (decide (a ∈ seen)) as [Hin|Hnot].
    + rewrite IH, elem_of_cons. split; [tauto|].
      intros [[->|Hl] Hs]; [contradiction|tauto].
    + rewrite elem_of_cons, IH, !elem_of_cons.
      destruct (decide (x = a)) as [->|Hne]; tauto.
Qed.

Lemma elem_of_unique (l : list string) (x : string) : x ∈ unique l <-> x ∈ l.
Proof.
  unfold unique. rewrite elem_of_unique_from, elem_of_nil. tauto.
Qed.

(** The loop of [fit] is the fold of [fit_step] over the documents and the
    labels found for them. *)
Lemma fit_loop_fold (tok : Tokenizer) (X y : list string) (i : nat)
    (v : gset string) (c : dict (gmap string nat)) st :
  tables_have_total c ->
  fit_loop tok X y i v c = Ok st ->
  (length X <= length (drop i y))%nat
  /\ st = foldl (fit_step tok) (v, c) (zip X (drop i y)).
Proof.
  revert i v c. induction X as [|text X IH]; intros i v c Hc.
  - intros [= <-]. split; [simpl; lia|reflexivity].
  - cbn [fit_loop]. destruct (y !! i) as [label|] eqn:Hi; [|discriminate].
    cbn [of_option mbind result_bind].
    rewrite (fit_document_eq v c _ label Hc).
    pose proof (fit_document_total_tables v c (apply tok text) label Hc)
      as Hc'.
    assert (Hstep : fit_step tok (v, c) (text, label)
                    = fit_document_total v c (apply tok text) label)
      by reflexivity.
    destruct (fit_document_total v c (apply tok text) label) as [v' c'].
    intros Hloop. apply (IH (S i) v' c' Hc') in Hloop as [Hlen ->].
    rewrite (drop_S _ _ _ Hi). cbn [zip_with foldl length].
    rewrite Hstep. split; [lia|reflexivity].
Qed.

Lemma compute_priors_inv (items : dict (gmap string nat)) (n : nat) priors :
  compute_priors items n = Ok priors ->
  priors = priors_of items n
  /\ (forall l t, (l, t) ∈ items -> is_Some (t !! TOTAL))
  /\ (items <> [] -> n <> 0%nat).
Proof.
  revert priors. induction items as [|[l t] items IH]; intros priors; simpl.
  - intros [= <-]. split; [reflexivity|]. split; [|congruence].
    intros l t Hin. apply elem_of_nil in Hin. contradiction.
  - destruct (t !! TOTAL) as [total|] eqn:Ht; simpl; [|discriminate].
    destruct (py_div _ _) as [prior|] eqn:Hdiv; simpl; [|discriminate].
    destruct (compute_priors items n) as [rest|]; simpl; [|discriminate].
    intros [= <-]. apply py_div_inv in Hdiv as [Hn ->].
    destruct (IH rest eq_refl) as (-> & Htot & _).
    split; [|split].
    + unfold priors_of. simpl. unfold table_total. rewrite Ht. reflexivity.
    + intros l' t' Hin. apply elem_of_cons in Hin as [[= -> ->]|Hin].
      * rewrite Ht. eauto.
      * eapply Htot. exact Hin.
    + intros _ ->. apply Hn. apply Qc_of_nat_0.
Qed.

Section FitFold.
Variable tok : Tokenizer.
Implicit Types (docs : list (string * string)) (v : gset string).
Implicit Types (c : dict (gmap string nat)).

Lemma fit_fold_keys docs v c :
  dict_keys (foldl (fit_step tok) (v, c) docs).2
  = foldl add_key (dict_keys c) docs.*2.
Proof.
  revert v c. induction docs as [|[text label] docs IH]; intros v c.
  - reflexivity.
  - cbn [foldl fmap list_fmap].
    destruct (fit_step tok (v, c) (text, label)) as [v' c'] eqn:Hstep.
    rewrite IH. f_equal.
    change c' with (v', c').2. rewrite <- Hstep.
    apply fit_document_total_keys.
Qed.

Lemma fit_fold_NoDup docs v c :
  NoDup (dict_keys c) ->
  NoDup (dict_keys (foldl (fit_step tok) (v, c) docs).2).
Proof.
  revert v c. induction docs as [|[text label] docs IH]; intros v c Hnd.
  - exact Hnd.
  - cbn [foldl].
    destruct (fit_document_total_as_set v c (apply tok text) label)
      as (table & Hset & _).
    destruct (fit_step tok (v, c) (text, label)) as [v' c'] eqn:Hstep.
    apply IH. change c' with (v', c').2. rewrite <- Hstep.
    unfold fit_step. cbn [fst snd]. rewrite Hset.
    apply dict_keys_set_NoDup. exact Hnd.
Qed.



End FitFold.

(** ** Trained models *)

Lemma dict_keys_priors_of (c : dict (gmap string nat)) (n : nat) :
  dict_keys (priors_of c n) = dict_keys c.
Proof.
  unfold dict_keys, priors_of. induction c as [|[l t] c IH]; csimpl.
  - reflexivity.
  - f_equal. exact IH.
Qed.


(** What one call of [fit] on a new classifier leaves in the model. *)
Lemma trained_on_inv (tok : Tokenizer) (X y : list string)
    (m : NaiveBayesClassifier) :
  trained_on tok X y m ->
  let st := foldl (fit_step tok) (∅, []) (zip X y) in
  (length X <= length y)%nat /\ length y <> 0%nat
  /\ tokenizer m = tok /\ vocab m = st.1 /\ class_word_counts m = st.2
  /\ class_priors m = priors_of st.2 (length y)
  /\ (forall l t, dict_get st.2 l = Some t -> is_Some (t !! TOTAL)).
Proof.
  intros [HX Hfit] st. unfold fit in Hfit. simpl in Hfit.
  destruct (fit_loop tok X y 0 ∅ []) as [[v c]|] eqn:Hloop; [|discriminate].
  simpl in Hfit.
  destruct (compute_priors c (length y)) as [priors|] eqn:Hpriors;
    [|discriminate].
  simpl in Hfit. injection Hfit as <-. simpl.
  apply fit_loop_fold in Hloop as [Hlen Hst]; [|intros l t; discriminate].
  rewrite drop_0 in Hlen, Hst.
  apply compute_priors_inv in Hpriors as (-> & Htot & _).
  assert (Hst' : st = (v, c)) by (symmetry; exact Hst).
  clearbody st. subst st. simpl.
  split; [exact Hlen|]. split.
  { destruct X; [congruence|]. simpl in Hlen. lia. }
  repeat split; try reflexivity.
  intros l t Hl. eapply Htot. apply dict_get_Some_elem_of. exact Hl.
Qed.

Section Trained.
Variables (tok : Tokenizer) (X y : list string) (m : NaiveBayesClassifier).
Hypothesis Hm : trained_on tok X y m.

Lemma trained_tokenizer : tokenizer m = tok.
Proof. apply (trained_on_inv _ _ _ _ Hm). Qed.

Lemma trained_priors :
  class_priors m = priors_of (class_word_counts m) (length y).
Proof.
  destruct (trained_on_inv _ _ _ _ Hm) as (_ & _ & _ & _ & -> & -> & _).
  reflexivity.
Qed.

Lemma trained_documents : (length X <= length y)%nat /\ length y <> 0%nat.
Proof.
  destruct (trained_on_inv _ _ _ _ Hm) as (H1 & H2 & _). tauto.
Qed.

Lemma trained_totals l t :
  dict_get (class_word_counts m) l = Some t -> is_Some (t !! TOTAL).
Proof.
  destruct (trained_on_inv _ _ _ _ Hm) as (_ & _ & _ & _ & -> & _ & Htot).
  apply Htot.
Qed.

(** The categories of the model are the labels of the training documents, in
    the order in which [fit] met them. *)
Lemma trained_categories :
  dict_keys (class_word_counts m) = unique (training_labels X y).
Proof.
  destruct (trained_on_inv _ _ _ _ Hm) as (Hlen & _ & _ & _ & -> & _).
  rewrite fit_fold_keys, foldl_add_key. simpl. unfold unique, training_labels.
  f_equal. rewrite <- (zip_with_take_r pair X y).
  apply snd_zip. rewrite length_take. lia.
Qed.

Lemma trained_prior_keys :
  dict_keys (class_priors m) = unique (training_labels X y).
Proof.
  rewrite trained_priors, dict_keys_priors_of. apply trained_categories.
Qed.

Lemma trained_NoDup : NoDup (dict_keys (class_word_counts m)).
Proof.
  destruct (trained_on_inv _ _ _ _ Hm) as (_ & _ & _ & _ & -> & _).
  apply fit_fold_NoDup. apply NoDup_nil. exact I.
Qed.

Lemma trained_prior_NoDup : NoDup (dict_keys (class_priors m)).
Proof.
  rewrite trained_priors, dict_keys_priors_of. apply trained_NoDup.
Qed.

Lemma trained_category_seen (c : string) :
  c ∈ dict_keys (class_priors m) <-> c ∈ training_labels X y.
Proof. rewrite trained_prior_keys. apply elem_of_unique. Qed.

Lemma trained_nonempty : class_priors m <> [].
Proof.
  destruct Hm as [HX _]. destruct trained_documents as [Hlen _].
  intros Hnil.
  assert (Hkeys : dict_keys (class_priors m) = []) by (rewrite Hnil; done).
  rewrite trained_prior_keys in Hkeys.
  destruct X as [|x X']; [congruence|]. destruct y as [|l y'].
  { simpl in Hlen. lia. }
  discriminate Hkeys.
Qed.


End Trained.

(** ** Posteriors *)



Section Likelihood.
Variables (m : NaiveBayesClassifier) (label : string).

(** Whatever the loop over the words returns is the product of the smoothed
    factors, times what the likelihood started from. *)
Lemma likelihood_loop_inv (words : list string) (acc v : Qc) :
  likelihood_loop m label words acc = Ok v ->
  v = acc * product (map (smoothed m label) words).
Proof.
  revert acc. induction words as [|word words IH]; intros acc; simpl.
  - intros [= <-]. unfold product. simpl. ring.
  - unfold dict_item.
    destruct (dict_get (class_word_counts m) label) as [table|] eqn:Htable;
      simpl; [|discriminate].
    destruct (table !! TOTAL) as [total_words|] eqn:Htotal; simpl;
      [|discriminate].
    destruct (py_div _ _) as [factor|] eqn:Hdiv; simpl; [|discriminate].
    intros Hloop. apply IH in Hloop as ->.
    apply py_div_inv in Hdiv as [_ ->].
    unfold product. simpl. fold (product (map (smoothed m label) words)).
    unfold smoothed, count, total, table_of. rewrite Htable. simpl.
    rewrite Htotal. simpl. ring.
Qed.

(** The loop returns when the table of the label is there with its total and
    no denominator is zero. *)
Lemma likelihood_loop_ok (words : list string) (acc : Qc) table :
  dict_get (class_word_counts m) label = Some table ->
  is_Some (table !! TOTAL) ->
  words = [] \/ (0 < total m label + size (vocab m))%nat ->
  likelihood_loop m label words acc
  = Ok (acc * product (map (smoothed m label) words)).
Proof.
  intros Htable [total_words Htotal] Hden.
  assert (Hex : exists v, likelihood_loop m label words acc = Ok v).
  { revert acc. induction words as [|word words IH]; intros acc; simpl.
    - eauto.
    - destruct Hden as [Hnil|Hden]; [discriminate|].
      unfold dict_item. rewrite Htable. simpl. rewrite Htotal. simpl.
      rewrite py_div_ok.
      + simpl. apply IH. right. exact Hden.
      + rewrite Qc_of_nat_eq_0. unfold total, table_of in Hden.
        rewrite Htable in Hden. simpl in Hden. rewrite Htotal in Hden.
        simpl in Hden. lia. }
  destruct Hex as [v Hv]. rewrite Hv. f_equal.
  apply likelihood_loop_inv. exact Hv.
Qed.
End Likelihood.

Section PosteriorsLoop.
Variables (m : NaiveBayesClassifier) (words : list string).

(** [ps] is a run of entries of [class_priors] still to visit, [acc] the
    posteriors of the entries already visited. *)
Lemma posteriors_loop_inv (ps acc : dict Qc) r :
  (forall k p, (k, p) ∈ ps -> dict_get (class_priors m) k = Some p) ->
  NoDup (dict_keys acc ++ dict_keys ps) ->
  posteriors_loop m words (dict_keys ps) acc = Ok r ->
  r = acc ++ map (posterior_of m words) ps.
Proof.
  revert acc. induction ps as [|[k p] ps IH]; intros acc Hget Hnd; simpl.
  - intros [= <-]. rewrite app_nil_r. reflexivity.
  - unfold dict_item. rewrite (Hget k p) by (apply elem_of_cons; tauto).
    simpl.
    destruct (likelihood_loop m k words 1) as [lik|] eqn:Hlik; simpl;
      [|discriminate].
    apply likelihood_loop_inv in Hlik as ->.
    assert (Hk : dict_get acc k = None).
    { apply dict_get_None. intros Hin. apply NoDup_app in Hnd as (_ & Hd & _).
      apply (Hd k Hin). apply elem_of_cons. tauto. }
    rewrite (dict_set_new acc k _ Hk). intros Hloop.
    apply IH in Hloop as ->.
    + rewrite <- app_assoc. simpl. unfold posterior_of at 2. simpl.
      rewrite Qcmult_1_l. reflexivity.
    + intros k' p' Hin. apply Hget. apply elem_of_cons. tauto.
    + unfold dict_keys in Hnd |- *. rewrite fmap_app, <- app_assoc.
      exact Hnd.
Qed.

Lemma posteriors_loop_ok (ps acc : dict Qc) :
  (forall k p, (k, p) ∈ ps -> dict_get (class_priors m) k = Some p) ->
  (forall k p, (k, p) ∈ ps ->
     likelihood_loop m k words 1
     = Ok (1 * product (map (smoothed m k) words))) ->
  NoDup (dict_keys acc ++ dict_keys ps) ->
  posteriors_loop m words (dict_keys ps) acc
  = Ok (acc ++ map (posterior_of m words) ps).
Proof.
  intros Hget Hlik Hnd.
  assert (Hex : exists r, posteriors_loop m words (dict_keys ps) acc = Ok r).
  { clear Hnd. revert acc.
    induction ps as [|[k p] ps IH]; intros acc; simpl.
    - eauto.
    - unfold dict_item. rewrite (Hget k p) by (apply elem_of_cons; tauto).
      simpl. rewrite (Hlik k p) by (apply elem_of_cons; tauto). simpl.
      apply IH.
      + intros k' p' Hin. apply Hget. apply elem_of_cons. tauto.
      + intros k' p' Hin. eapply Hlik. apply elem_of_cons. right. exact Hin. }
  destruct Hex as [r Hr]. rewrite Hr. f_equal.
  apply posteriors_loop_inv; assumption.
Qed.
End PosteriorsLoop.

Lemma dict_keys_posteriors_of (m : NaiveBayesClassifier) (words : list string) :
  dict_keys (posteriors_of m words) = dict_keys (class_priors m).
Proof.
  unfold dict_keys, posteriors_of.
  induction (class_priors m) as [|[k p] d IH]; csimpl.
  - reflexivity.
  - f_equal. exact IH.
Qed.


Section TrainedPosteriors.
Variables (tok : Tokenizer) (X y : list string) (m : NaiveBayesClassifier).
Hypothesis Hm : trained_on tok X y m.

(** Whatever [_calculate_posteriors] returns is the dictionary of the priors
    with each prior multiplied by its smoothed product. *)
Lemma calculate_posteriors_inv (text : string) ps :
  _calculate_posteriors m text = Ok ps ->
  ps = posteriors_of m (apply tok text).
Proof.
  unfold _calculate_posteriors. rewrite (trained_tokenizer _ _ _ _ Hm).
  intros Hloop. apply posteriors_loop_inv in Hloop; [exact Hloop| |].
  - intros k p Hin. apply dict_get_elem_of; [|exact Hin].
    apply (trained_prior_NoDup _ _ _ _ Hm).
  - simpl. apply (trained_prior_NoDup _ _ _ _ Hm).
Qed.

(** It returns for a text without token, and for every text when the
    vocabulary is not empty. *)
Lemma calculate_posteriors_ok (text : string) :
  apply tok text = [] \/ vocab m <> ∅ ->
  _calculate_posteriors m text = Ok (posteriors_of m (apply tok text)).
Proof.
  intros Hden.
  unfold _calculate_posteriors. rewrite (trained_tokenizer _ _ _ _ Hm).
  rewrite (posteriors_loop_ok m (apply tok text) (class_priors m) []).
  - reflexivity.
  - intros k p Hin. apply dict_get_elem_of; [|exact Hin].
    apply (trained_prior_NoDup _ _ _ _ Hm).
  - intros k p Hin.
    assert (Hk : k ∈ dict_keys (class_word_counts m)).
    { rewrite <- (dict_keys_priors_of _ (length y)),
        <- (trained_priors _ _ _ _ Hm).
      apply list_elem_of_fmap. exists (k, p). split; [reflexivity|exact Hin]. }
    apply dict_get_is_Some in Hk as [table Htable].
    apply (likelihood_loop_ok m k _ 1 table Htable).
    + apply (trained_totals _ _ _ _ Hm k). exact Htable.
    + destruct Hden as [Hnil|Hvocab]; [left; exact Hnil|right].
      assert (size (vocab m) <> 0%nat); [|lia].
      intros Hsize. apply Hvocab. apply leibniz_equiv, size_empty_iff.
      exact Hsize.
  - simpl. apply (trained_prior_NoDup _ _ _ _ Hm).
Qed.
End TrainedPosteriors.

(** ** The maximum of a dictionary *)

Lemma max_from_first_argmax (whole pre d : dict Qc) (best : string * Qc)
    (i : nat) :
  whole = pre ++ d ->
  whole !! i = Some best ->
  (i < length pre)%nat ->
  (forall j kv, (j < length pre)%nat -> whole !! j = Some kv ->
                kv.2 <= best.2) ->
  (forall j kv, (j < i)%nat -> whole !! j = Some kv -> kv.2 < best.2) ->
  first_argmax whole (max_from best d).
Proof.
  revert pre best i. induction d as [|[k v] d IH];
    intros pre best i Hwhole Hi Hlt Hle Hbefore; simpl.
  - exists i, best.2. rewrite <- surjective_pairing.
    split; [exact Hi|]. split; [|exact Hbefore].
    intros j kv Hj. apply (Hle j kv); [|exact Hj].
    apply lookup_lt_Some in Hj. rewrite Hwhole, app_nil_r in Hj. exact Hj.
  - assert (Hwhole' : whole = (pre ++ [(k, v)]) ++ d).
    { rewrite <- app_assoc. exact Hwhole. }
    assert (Hkv : whole !! length pre = Some (k, v)).
    { rewrite Hwhole. rewrite lookup_app_r by lia.
      rewrite Nat.sub_diag. reflexivity. }
    destruct (Qc_gtb v best.2) eqn:Hgt.
    + apply Qc_gtb_true in Hgt.
      apply (IH (pre ++ [(k, v)]) (k, v) (length pre) Hwhole' Hkv).
      * rewrite length_app. simpl. lia.
      * intros j kv Hj Hjkv. rewrite length_app in Hj. simpl in Hj. simpl.
        destruct (decide (j = length pre)) as [->|Hne].
        -- rewrite Hkv in Hjkv. injection Hjkv as <-. apply Qcle_refl.
        -- apply Qclt_le_weak. eapply Qcle_lt_trans; [|exact Hgt].
           apply (Hle j kv); [lia|exact Hjkv].
      * intros j kv Hj Hjkv. simpl.
        eapply Qcle_lt_trans; [|exact Hgt]. apply (Hle j kv Hj Hjkv).
    + apply Qc_gtb_false in Hgt.
      apply (IH (pre ++ [(k, v)]) best i Hwhole' Hi).
      * rewrite length_app. simpl. lia.
      * intros j kv Hj Hjkv. rewrite length_app in Hj. simpl in Hj.
        destruct (decide (j = length pre)) as [->|Hne].
        -- rewrite Hkv in Hjkv. injection Hjkv as <-. exact Hgt.
        -- apply (Hle j kv); [lia|exact Hjkv].
      * exact Hbefore.
Qed.

Lemma py_max_key_first_argmax (d : dict Qc) (c : string) :
  py_max_key d = Ok c -> first_argmax d c.
Proof.
  destruct d as [|kv d]; simpl; [discriminate|]. intros [= <-].
  apply (max_from_first_argmax (kv :: d) [kv] d kv 0).
  - reflexivity.
  - reflexivity.
  - simpl. lia.
  - intros j kv' Hj Hkv'. simpl in Hj. destruct j; [|lia].
    injection Hkv' as <-. apply Qcle_refl.
  - intros j kv' Hj. lia.
Qed.

Lemma py_max_key_ok (d : dict Qc) :
  d <> [] -> exists c, py_max_key d = Ok c.
Proof. destruct d as [|kv d]; [congruence|]. simpl. eauto. Qed.

(** A first maximum is unique: [first_argmax] names one key. *)
Lemma first_argmax_unique (d : dict Qc) (c1 c2 : string) :
  first_argmax d c1 -> first_argmax d c2 -> c1 = c2.
Proof.
  intros (i1 & v1 & Hi1 & Hle1 & Hlt1) (i2 & v2 & Hi2 & Hle2 & Hlt2).
  destruct (lt_eq_lt_dec i1 i2) as [[Hlt|Heq]|Hgt].
  - pose proof (Hlt2 i1 _ Hlt Hi1) as H1. pose proof (Hle1 i2 _ Hi2) as H2.
    simpl in H1, H2. exfalso. apply (Qclt_not_le _ _ H1 H2).
  - subst i2. rewrite Hi1 in Hi2. congruence.
  - pose proof (Hlt1 i2 _ Hgt Hi2) as H1. pose proof (Hle2 i1 _ Hi1) as H2.
    simpl in H1, H2. exfalso. apply (Qclt_not_le _ _ H1 H2).
Qed.


(** ** Smoothed posteriors *)




(** ** Texts without token *)

Lemma posteriors_of_nil (m : NaiveBayesClassifier) :
  posteriors_of m [] = class_priors m.
Proof.
  unfold posteriors_of. induction (class_priors m) as [|[k p] d IH]; simpl.
  - reflexivity.
  - rewrite IH. unfold posterior_of, product. simpl.
    rewrite Qcmult_1_r. reflexivity.
Qed.

(** C9: for a trained model and a text whose tokenization is empty, the
    posteriors are exactly the priors, and [predict] returns the first
    category, in the order of the priors, whose prior is the largest. *)
Theorem empty_text_posteriors_are_priors (tok : Tokenizer)
    (X y : list string) (m : NaiveBayesClassifier) (text : string) :
  trained_on tok X y m ->
  apply tok text = [] ->
  _calculate_posteriors m text = Ok (class_priors m)
  /\ dict_keys (class_priors m) = unique (training_labels X y)
  /\ exists c, predict m [text] = Ok [c] /\ first_argmax (class_priors m) c.
Proof.
  intros Hm Hnil.
  assert (Hps : _calculate_posteriors m text = Ok (class_priors m)).
  { rewrite (calculate_posteriors_ok _ _ _ _ Hm) by (left; exact Hnil).
    rewrite Hnil, posteriors_of_nil. reflexivity. }
  split; [exact Hps|]. split; [apply (trained_prior_keys _ _ _ _ Hm)|].
  destruct (py_max_key_ok (class_priors m)) as [c Hc].
  { apply (trained_nonempty _ _ _ _ Hm). }
  exists c. split.
  - simpl. rewrite Hps. simpl. rewrite Hc. reflexivity.
  - apply py_max_key_first_argmax. exact Hc.
Qed.

Lemma empty_text_posteriors_are_priors_witness :
  trained_on identity_tokenizer scenario_X scenario_y scenario_model
  /\ apply identity_tokenizer "  " = []
  /\ _calculate_posteriors scenario_model "  "
     = Ok (class_priors scenario_model)
  /\ dict_keys (class_priors scenario_model)
     = unique (training_labels scenario_X scenario_y)
  /\ exists c, predict scenario_model ["  "] = Ok [c]
               /\ first_argmax (class_priors scenario_model) c.
Proof.
  assert (Hm : trained_on identity_tokenizer scenario_X scenario_y
                 scenario_model) by run_fit.
  split; [exact Hm|]. split; [reflexivity|].
  exact (empty_text_posteriors_are_priors identity_tokenizer scenario_X
           scenario_y scenario_model "  " Hm eq_refl).
Defined.

(** ** Top-1 prediction *)

Lemma predict_cons_inv (m : NaiveBayesClassifier) (text : string)
    (X : list string) preds :
  predict m (text :: X) = Ok preds ->
  exists ps c rest,
    _calculate_posteriors m text = Ok ps /\ py_max_key ps = Ok c
    /\ predict m X = Ok rest /\ preds = c :: rest.
Proof.
  simpl.
  destruct (_calculate_posteriors m text) as [ps|] eqn:Hps; simpl;
    [|discriminate].
  destruct (py_max_key ps) as [c|] eqn:Hc; simpl; [|discriminate].
  destruct (predict m X) as [rest|] eqn:Hrest; simpl; [|discriminate].
  intros [= <-]. exists ps, c, rest. auto.
Qed.

(** C8: for a trained model, each category that [predict] returns has the
    maximal posterior of its text, and among the categories of maximal
    posterior it is the first in the order of the posteriors, which is the
    order in which [fit] first saw the categories. [predict] does return when
    the vocabulary is not empty. *)
Theorem predict_first_argmax (tok : Tokenizer) (X y : list string)
    (m : NaiveBayesClassifier) :
  trained_on tok X y m ->
  (forall texts preds,
     predict m texts = Ok preds ->
     Forall2 (fun text c =>
                exists ps,
                  _calculate_posteriors m text = Ok ps
                  /\ dict_keys ps = unique (training_labels X y)
                  /\ first_argmax ps c)
             texts preds)
  /\ (vocab m <> ∅ -> forall texts, exists preds, predict m texts = Ok preds).
Proof.
  intros Hm. split.
  - induction texts as [|text texts IH]; intros preds Hpred.
    + injection Hpred as <-. constructor.
    + apply predict_cons_inv in Hpred
        as (ps & c & rest & Hps & Hmax & Hrest & ->).
      constructor; [|apply IH; exact Hrest].
      exists ps. split; [exact Hps|]. split.
      * apply (calculate_posteriors_inv _ _ _ _ Hm) in Hps as ->.
        rewrite dict_keys_posteriors_of.
        apply (trained_prior_keys _ _ _ _ Hm).
      * apply py_max_key_first_argmax. exact Hmax.
  - intros Hvocab. induction texts as [|text texts [rest Hrest]].
    + exists []. reflexivity.
    + simpl.
      rewrite (calculate_posteriors_ok _ _ _ _ Hm) by (right; exact Hvocab).
      simpl.
      destruct (py_max_key_ok (posteriors_of m (apply tok text))) as [c Hc].
      { intros Hnil. apply (trained_nonempty _ _ _ _ Hm).
        unfold posteriors_of in Hnil. apply fmap_nil_inv in Hnil.
        exact Hnil. }
      rewrite Hc, Hrest. simpl. eauto.
Qed.

Lemma predict_first_argmax_witness :
  trained_on identity_tokenizer scenario_X scenario_y scenario_model
  /\ predict scenario_model ["market rally"; "team"; ""]
     = Ok ["finance"; "sports"; "finance"]
  /\ Forall2 (fun text c =>
                exists ps,
                  _calculate_posteriors scenario_model text = Ok ps
                  /\ dict_keys ps
                     = unique (training_labels scenario_X scenario_y)
                  /\ first_argmax ps c)
             ["market rally"; "team"; ""] ["finance"; "sports"; "finance"].
Proof.
  assert (Hpred : predict scenario_model ["market rally"; "team"; ""]
                  = Ok ["finance"; "sports"; "finance"]).
  { vm_compute. reflexivity. }
  assert (Hm : trained_on identity_tokenizer scenario_X scenario_y
                 scenario_model) by run_fit.
  split; [exact Hm|]. split; [exact Hpred|].
  exact (proj1 (predict_first_argmax identity_tokenizer scenario_X scenario_y
                  scenario_model Hm) _ _ Hpred).
Defined.

(** On a tie the first category met by [fit] wins: the three categories of
    the model below have the same prior. *)
Example predict_tie_first_seen :
  predict (model_of (fit (init identity_tokenizer) abc_X abc_y)) [""; "b"; "z"]
  = Ok ["A"; "B"; "A"].
Proof. vm_compute. reflexivity. Qed.

(** ** Sums of posteriors *)





Lemma Qcdiv_nonneg (a b : Qc) : 0 <= a -> 0 < b -> 0 <= a / b.
Proof.
  intros Ha Hb. unfold Qcdiv. apply Qcmult_nonneg_nonneg; [exact Ha|].
  apply Qclt_le_weak, Qcinv_pos. exact Hb.
Qed.

Section TrainedSum.
Variables (tok : Tokenizer) (X y : list string) (m : NaiveBayesClassifier).
Hypothesis Hm : trained_on tok X y m.
Hypothesis Hvocab : vocab m <> ∅.






End TrainedSum.

(** ** Threshold classification *)

Lemma counts_eq (a b : Counts) :
  TP a = TP b -> FP a = FP b -> FN a = FN b -> TN a = TN b -> a = b.
Proof. destruct a, b. simpl. intros -> -> -> ->. reflexivity. Qed.

Lemma tally_cons (pos : string -> bool) (category : string)
    (d : string * string) (docs : list (string * string)) (c : Counts) :
  counts_add (record_outcome (pos d.1) (bool_decide (d.2 = category)) c)
             (tally pos category docs)
  = counts_add c (tally pos category (d :: docs)).
Proof.
  apply counts_eq; unfold tally, how_many; simpl;
    destruct (pos d.1), (bool_decide (d.2 = category)); simpl; lia.
Qed.


Section TrainedClassify.
Variables (tok : Tokenizer) (X y : list string) (m : NaiveBayesClassifier).
Hypothesis Hm : trained_on tok X y m.

Lemma classify_step_inv (text : string) (y' : list string) (index : nat)
    (umbral : Qc) (category : string) (c c' : Counts) :
  classify_step m text y' index umbral category c = Ok c' ->
  exists truth,
    y' !! index = Some truth
    /\ c' = record_outcome (positive m umbral category text)
              (bool_decide (truth = category)) c.
Proof.
  unfold classify_step.
  destruct (_calculate_posteriors m text) as [ps|] eqn:Hps; simpl;
    [|discriminate].
  apply (calculate_posteriors_inv _ _ _ _ Hm) in Hps as ->.
  unfold dict_item.
  destruct (dict_get _ category) as [cat_prob|] eqn:Hcat; simpl;
    [|discriminate].
  destruct (py_div _ _) as [score|] eqn:Hdiv; simpl; [|discriminate].
  apply py_div_inv in Hdiv as [_ ->].
  destruct (y' !! index) as [truth|]; simpl; [|discriminate].
  intros [= <-]. exists truth. split; [reflexivity|].
  unfold positive, normalized. rewrite (trained_tokenizer _ _ _ _ Hm), Hcat.
  simpl. destruct (Qc_gtb _ _), (decide (truth = category)) as [Heq|Hne].
  - rewrite bool_decide_eq_true_2 by exact Heq.
    apply counts_eq; simpl; lia.
  - rewrite bool_decide_eq_false_2 by exact Hne.
    apply counts_eq; simpl; lia.
  - rewrite bool_decide_eq_true_2 by exact Heq.
    apply counts_eq; simpl; lia.
  - rewrite bool_decide_eq_false_2 by exact Hne.
    apply counts_eq; simpl; lia.
Qed.


Lemma classify_loop_inv (X' y' : list string) (index : nat) (umbral : Qc)
    (category : string) (c r : Counts) :
  classify_loop m X' y' index umbral category c = Ok r ->
  (length X' <= length (drop index y'))%nat
  /\ r = counts_add c (tally (positive m umbral category) category
                         (zip X' (drop index y'))).
Proof.
  revert index c. induction X' as [|text X' IH]; intros index c; simpl.
  - intros [= <-]. split; [lia|]. apply counts_eq; simpl; unfold how_many; simpl; lia.
  - destruct (classify_step m text y' index umbral category c) as [c'|]
      eqn:Hstep; simpl; [|discriminate].
    apply classify_step_inv in Hstep as (truth & Htruth & ->).
    intros Hloop. apply IH in Hloop as [Hlen ->].
    rewrite (drop_S _ _ _ Htruth). simpl length. split; [lia|].
    apply (tally_cons (positive m umbral category) category (text, truth)).
Qed.

End TrainedClassify.



(** ** The target category of [classify] *)

(** C10: the posteriors of a trained model hold exactly the categories of the
    training labels, so for a target category that is not one of them the
    lookup [posteriors[category]] fails: [classify] on at least one document
    raises, and the exception is the [KeyError] of that lookup once the
    posteriors of the first document are computed. *)
Theorem classify_unseen_category (tok : Tokenizer) (X y : list string)
    (m : NaiveBayesClassifier) :
  trained_on tok X y m ->
  (forall text ps,
     _calculate_posteriors m text = Ok ps ->
     forall c, is_Some (dict_get ps c) <-> c ∈ training_labels X y)
  /\ (forall category,
        category ∉ training_labels X y ->
        forall text X' y' umbral,
          (forall ps, _calculate_posteriors m text = Ok ps ->
                      dict_item ps category = Raise (KeyError category))
          /\ (exists e, classify m (text :: X') y' umbral category = Raise e)
          /\ (vocab m <> ∅ ->
              classify m (text :: X') y' umbral category
              = Raise (KeyError category))).
Proof.
  intros Hm.
  assert (Hkeys : forall text ps,
            _calculate_posteriors m text = Ok ps ->
            forall c, is_Some (dict_get ps c) <-> c ∈ training_labels X y).
  { intros text ps Hps c.
    apply (calculate_posteriors_inv _ _ _ _ Hm) in Hps as ->.
    rewrite dict_get_is_Some, dict_keys_posteriors_of.
    apply (trained_category_seen _ _ _ _ Hm). }
  split; [exact Hkeys|].
  intros category Hnot text X' y' umbral.
  assert (Hitem : forall ps, _calculate_posteriors m text = Ok ps ->
                             dict_item ps category = Raise (KeyError category)).
  { intros ps Hps. unfold dict_item.
    destruct (dict_get ps category) as [p|] eqn:Hget; [|reflexivity].
    exfalso. apply Hnot. apply (Hkeys text ps Hps). rewrite Hget. eauto. }
  assert (Hstep : forall ps, _calculate_posteriors m text = Ok ps ->
            classify m (text :: X') y' umbral category
            = Raise (KeyError category)).
  { intros ps Hps. unfold classify. simpl. unfold classify_step.
    rewrite Hps. simpl. rewrite (Hitem ps Hps). reflexivity. }
  split; [exact Hitem|]. split.
  - destruct (_calculate_posteriors m text) as [ps|e] eqn:Hps.
    + exists (KeyError category). apply (Hstep ps). reflexivity.
    + exists e. unfold classify. simpl. unfold classify_step.
      rewrite Hps. reflexivity.
  - intros Hvocab. apply (Hstep (posteriors_of m (apply tok text))).
    apply (calculate_posteriors_ok _ _ _ _ Hm). right. exact Hvocab.
Qed.

Lemma classify_unseen_category_witness :
  trained_on identity_tokenizer scenario_X scenario_y scenario_model
  /\ ("weather" ∉ training_labels scenario_X scenario_y)
  /\ classify scenario_model ["market rally"] ["finance"] 0 "weather"
     = Raise (KeyError "weather").
Proof.
  assert (Hnot : "weather" ∉ training_labels scenario_X scenario_y).
  { intros Hin. apply list_elem_of_In in Hin. simpl in Hin.
    intuition discriminate. }
  assert (Hvocab : vocab scenario_model <> ∅).
  { intros Hempty. vm_compute in Hempty. discriminate Hempty. }
  assert (Hm : trained_on identity_tokenizer scenario_X scenario_y
                 scenario_model) by run_fit.
  split; [exact Hm|]. split; [exact Hnot|].
  exact (proj2 (proj2 (proj2 (classify_unseen_category identity_tokenizer
           scenario_X scenario_y scenario_model Hm)
           "weather" Hnot "market rally" [] ["finance"] 0)) Hvocab).
Defined.

(** ** The sum of the priors *)






(** A token that is the reserved key is counted by both increments of
    [fit]. *)
Example reserved_key_counts_twice :
  total_of (model_of (fit (init identity_tokenizer) ["__total__"] ["a"])) "a"
  = Some 2%nat.
Proof. vm_compute. reflexivity. Qed.

(** * Further properties of the code *)

(** ** [str.split()] *)

Lemma flush_app (cur : list ascii) (acc : list string) :
  flush cur acc = acc ++ flush cur [].
Proof. destruct cur; simpl; [rewrite app_nil_r|]; reflexivity. Qed.

Lemma split_go_acc (s : string) (cur : list ascii) (acc : list string) :
  split_go s cur acc = acc ++ split_go s cur [].
Proof.
  revert cur acc. induction s as [|c s IH]; intros cur acc; simpl.
  - apply flush_app.
  - destruct (is_space c).
    + rewrite (IH [] (flush cur acc)), (IH [] (flush cur [])).
      rewrite (flush_app cur acc), app_assoc. reflexivity.
    + apply IH.
Qed.

Lemma chars_string_of_list (l : list ascii) :
  chars (String.string_of_list_ascii l) = l.
Proof. apply String.list_ascii_of_string_of_list_ascii. Qed.

(** A word: not empty, no whitespace in it. *)
Lemma split_go_words (s : string) (cur : list ascii) (acc : list string) :
  Forall (fun c => is_space c = false) cur ->
  Forall (fun w => w <> EmptyString
                   /\ Forall (fun c => is_space c = false) (chars w)) acc ->
  Forall (fun w => w <> EmptyString
                   /\ Forall (fun c => is_space c = false) (chars w))
         (split_go s cur acc).
Proof.
  assert (Hflush : forall cur acc,
    Forall (fun c => is_space c = false) cur ->
    Forall (fun w => w <> EmptyString
                     /\ Forall (fun c => is_space c = false) (chars w)) acc ->
    Forall (fun w => w <> EmptyString
                     /\ Forall (fun c => is_space c = false) (chars w))
           (flush cur acc)).
  { intros cur' acc' Hcur Hacc. destruct cur' as [|c cur']; [exact Hacc|].
    unfold flush. apply Forall_app. split; [exact Hacc|].
    apply Forall_singleton. split.
    - intros Hempty.
      apply (f_equal chars) in Hempty. rewrite chars_string_of_list in Hempty.
      apply (f_equal length) in Hempty. rewrite length_rev in Hempty.
      discriminate Hempty.
    - rewrite chars_string_of_list. apply Forall_rev. exact Hcur. }
  revert cur acc. induction s as [|c s IH]; intros cur acc Hcur Hacc; simpl.
  - apply Hflush; assumption.
  - destruct (is_space c) eqn:Hc.
    + apply IH; [constructor|]. apply Hflush; assumption.
    + apply IH; [|exact Hacc]. constructor; assumption.
Qed.

(** X1: no token of [split] is empty and none holds a whitespace
    character. *)
Theorem split_words (text : string) (w : string) :
  w ∈ split text ->
  w <> EmptyString /\ Forall (fun c => is_space c = false) (chars w).
Proof.
  intros Hw.
  pose proof (split_go_words text [] [] (Forall_nil_2 _) (Forall_nil_2 _))
    as Hall.
  rewrite Forall_forall in Hall. apply Hall. exact Hw.
Qed.

Lemma split_words_witness :
  "rally" ∈ split " stocks  rally today"
  /\ "rally" <> EmptyString
  /\ Forall (fun c => is_space c = false) (chars "rally").
Proof.
  assert (Hin : "rally" ∈ split " stocks  rally today").
  { vm_compute. apply list_elem_of_In. simpl. tauto. }
  split; [exact Hin|].
  exact (split_words " stocks  rally today" "rally" Hin).
Defined.

Lemma split_go_append (s1 s2 : string) (c : ascii) (cur : list ascii)
    (acc : list string) :
  is_space c = true ->
  split_go (s1 ++ String c s2) cur acc
  = split_go s1 cur acc ++ split_go s2 [] [].
Proof.
  intros Hc. revert cur acc.
  induction s1 as [|a s1 IH]; intros cur acc; simpl.
  - rewrite Hc. apply split_go_acc.
  - destruct (is_space a); apply IH.
Qed.

(** X2: whitespace separates: the tokens of a text cut at a whitespace
    character are the tokens of the part before it followed by the tokens of
    the part after it. *)
Theorem split_at_whitespace (s1 s2 : string) (c : ascii) :
  is_space c = true ->
  split (s1 ++ String c s2) = split s1 ++ split s2.
Proof. intros Hc. unfold split. apply split_go_append. exact Hc. Qed.

Lemma split_at_whitespace_witness :
  is_space " " = true
  /\ split ("team wins" ++ String " " "the cup")
     = split "team wins" ++ split "the cup".
Proof.
  split; [reflexivity|].
  exact (split_at_whitespace "team wins" "the cup" " " eq_refl).
Defined.

Lemma split_go_chars (s : string) (cur : list ascii) (acc : list string) :
  concat (map chars (split_go s cur acc))
  = concat (map chars acc) ++ rev cur
    ++ List.filter (fun c => negb (is_space c)) (chars s).
Proof.
  assert (Hflush : forall cur acc,
            concat (map chars (flush cur acc))
            = concat (map chars acc) ++ rev cur).
  { intros [|a cur'] acc'; simpl; [rewrite app_nil_r; reflexivity|].
    rewrite map_app, concat_app. simpl.
    rewrite chars_string_of_list, app_nil_r. reflexivity. }
  revert cur acc. induction s as [|c s IH]; intros cur acc; simpl.
  - rewrite app_nil_r. apply Hflush.
  - destruct (is_space c) eqn:Hc; simpl.
    + rewrite IH, Hflush. simpl. rewrite <- app_assoc. reflexivity.
    + rewrite IH. simpl. rewrite <- !app_assoc. reflexivity.
Qed.

(** X3: [split] drops whitespace and nothing else: the characters of the
    tokens, put end to end, are the characters of the text without the
    whitespace characters. *)
Theorem split_keeps_every_character (text : string) :
  concat (map chars (split text))
  = List.filter (fun c => negb (is_space c)) (chars text).
Proof. unfold split. rewrite split_go_chars. reflexivity. Qed.

(** ** The filters and sanitizers of the tokenizer *)

Ltac each_char c :=
  destruct c as [[] [] [] [] [] [] [] []]; vm_compute;
  try reflexivity; try discriminate; intros; try discriminate.




Lemma is_space_lower_char (c : ascii) : is_space (lower_char c) = is_space c.
Proof. each_char c. Qed.









Lemma split_go_lower (s : string) (cur : list ascii) (acc : list string) :
  split_go (lower s) (map lower_char cur) (map lower acc)
  = map lower (split_go s cur acc).
Proof.
  assert (Hstr : forall l,
            String.string_of_list_ascii (map lower_char l)
            = lower (String.string_of_list_ascii l)).
  { induction l as [|a l IHl]; simpl; [reflexivity|]. rewrite IHl.
    reflexivity. }
  assert (Hflush : forall cur acc,
            flush (map lower_char cur) (map lower acc)
            = map lower (flush cur acc)).
  { intros [|a cur'] acc'; simpl; [reflexivity|].
    rewrite map_app. simpl. rewrite <- Hstr, map_app, map_rev. reflexivity. }
  revert cur acc. unfold lower at 1.
  induction s as [|c s IH]; intros cur acc; simpl.
  - apply Hflush.
  - rewrite is_space_lower_char. destruct (is_space c).
    + rewrite Hflush. apply (IH [] (flush cur acc)).
    + apply (IH (c :: cur) acc).
Qed.

(** X5: [_tokenize], which lowers the text and then splits it, yields the
    tokens of the tokenizer that accepts every word and lowers each one:
    lowering never makes or removes a whitespace character. *)
Theorem tokenize_lowers_each_word (text : string) :
  _tokenize text
  = apply {| filter := identity_filter; sanitizer := to_lower |} text.
Proof.
  unfold _tokenize, apply, split. simpl.
  change (split_go (lower text) [] [])
    with (split_go (lower text) (map lower_char []) (map lower [])).
  rewrite split_go_lower.
  induction (split_go text [] []) as [|w l IH]; simpl; [reflexivity|].
  rewrite <- IH. reflexivity.
Qed.

(** ** What [fit] leaves in the vocabulary and in the tables *)

Section FitContents.
Variable tok : Tokenizer.

Lemma fit_fold_vocab (docs : list (string * string)) (v : gset string)
    (c : dict (gmap string nat)) :
  (foldl (fit_step tok) (v, c) docs).1
  = v ∪ list_to_set (concat (map (fun d => apply tok d.1) docs)).
Proof.
  revert v c. induction docs as [|[text label] docs IH]; intros v c.
  - simpl. rewrite (right_id_L ∅ (∪)). reflexivity.
  - cbn [foldl map concat].
    destruct (fit_step tok (v, c) (text, label)) as [v' c'] eqn:Hstep.
    rewrite IH.
    assert (Hv : v' = v ∪ list_to_set (apply tok text)).
    { change v' with (v', c').1. rewrite <- Hstep. reflexivity. }
    rewrite Hv, list_to_set_app_L, (assoc_L (∪)). reflexivity.
Qed.

Lemma fit_document_total_cell (v : gset string) (c : dict (gmap string nat))
    (words : list string) (label l k : string) :
  cell (fit_document_total v c words label).2 l k
  = (cell c l k + if decide (label = l) then contribution k words else 0)%nat.
Proof.
  unfold cell. destruct (decide (label = l)) as [<-|Hne].
  - unfold fit_document_total. simpl. rewrite dict_get_set_eq. simpl.
    set (table0 := default ∅ (dict_get _ label)).
    assert (Htable0 : forall k', default 0%nat (table0 !! k')
              = default 0%nat (dict_get c label ≫= fun t => t !! k')).
    { intros k'. subst table0. destruct (dict_get c label) as [t|] eqn:Hc.
      - rewrite Hc. reflexivity.
      - rewrite dict_get_set_eq. simpl.
        destruct (decide (k' = TOTAL)) as [->|Hk'].
        + rewrite lookup_singleton_eq. reflexivity.
        + rewrite lookup_singleton_ne by congruence. reflexivity. }
    destruct (count_words_lookup words
                (<[TOTAL := (default 0%nat (table0 !! TOTAL)
                             + length words)%nat]> table0) k) as [-> _].
    unfold contribution. destruct (decide (k = TOTAL)) as [->|Hk].
    + rewrite lookup_insert_eq. simpl. rewrite Htable0. unfold weight. lia.
    + rewrite lookup_insert_ne by congruence. rewrite Htable0. lia.
  - rewrite fit_document_total_other by congruence. lia.
Qed.

Lemma fit_fold_cell (docs : list (string * string)) (v : gset string)
    (c : dict (gmap string nat)) (l k : string) :
  cell (foldl (fit_step tok) (v, c) docs).2 l k
  = (cell c l k + counted tok l k docs)%nat.
Proof.
  unfold counted. revert v c.
  induction docs as [|[text label] docs IH]; intros v c.
  - simpl. lia.
  - cbn [foldl map sum_list sum_list_with].
    destruct (fit_step tok (v, c) (text, label)) as [v' c'] eqn:Hstep.
    rewrite IH.
    assert (Hc : c' = (fit_document_total v c (apply tok text) label).2).
    { change c' with (v', c').2. rewrite <- Hstep. reflexivity. }
    rewrite Hc, fit_document_total_cell. simpl. unfold id.
    destruct (decide (label = l)); lia.
Qed.
End FitContents.

Lemma count_cell (m : NaiveBayesClassifier) (c t : string) :
  count m c t = cell (class_word_counts m) c t.
Proof.
  unfold count, cell, table_of.
  destruct (dict_get (class_word_counts m) c); reflexivity.
Qed.

Lemma trained_vocab_tokens (tok : Tokenizer) (X y : list string)
    (m : NaiveBayesClassifier) (t : string) :
  trained_on tok X y m ->
  t ∈ vocab m <-> exists text, text ∈ X /\ t ∈ apply tok text.
Proof.
  intros Hm.
  destruct (trained_on_inv _ _ _ _ Hm) as (Hlen & _ & _ & -> & _).
  rewrite fit_fold_vocab.
  rewrite elem_of_union, elem_of_list_to_set, elem_of_empty.
  assert (Hdocs : map (fun d : string * string => apply tok d.1) (zip X y)
                  = map (apply tok) X).
  { rewrite <- (fst_zip X y) at 2 by exact Hlen.
    rewrite <- list_fmap_compose. reflexivity. }
  rewrite Hdocs. split.
  - intros [[]|Hin]. apply list_elem_of_In, in_concat in Hin
      as (words & Hwords & Ht).
    apply in_map_iff in Hwords as (text & <- & Htext).
    exists text. split; apply list_elem_of_In; assumption.
  - intros (text & Htext & Ht). right.
    apply list_elem_of_In, in_concat. exists (apply tok text).
    split; [|apply list_elem_of_In; exact Ht].
    apply in_map. apply list_elem_of_In. exact Htext.
Qed.

(** X6: after training, the vocabulary is the set of the tokens of the
    training documents: a token is in it exactly when some document yields
    it. *)
Theorem fit_vocabulary (tok : Tokenizer) (X y : list string)
    (m : NaiveBayesClassifier) (t : string) :
  trained_on tok X y m ->
  t ∈ vocab m <-> exists text, text ∈ X /\ t ∈ apply tok text.
Proof. apply trained_vocab_tokens. Qed.

Lemma fit_vocabulary_witness :
  trained_on identity_tokenizer scenario_X scenario_y scenario_model
  /\ ("crash" ∈ vocab scenario_model
      <-> exists text, text ∈ scenario_X
                       /\ "crash" ∈ apply identity_tokenizer text).
Proof.
  assert (Hm : trained_on identity_tokenizer scenario_X scenario_y
                 scenario_model) by run_fit.
  split; [exact Hm|].
  exact (fit_vocabulary identity_tokenizer scenario_X scenario_y
           scenario_model "crash" Hm).
Defined.

(** X7: after training, the count of a token [t] under a category [c] is the
    number of occurrences of [t] in the documents labelled [c], and the total
    of [c] is the number of tokens of these documents, where a token that is
    the string "__total__" counts twice; under "__total__" itself the count
    is that total. *)
Theorem fit_counts (tok : Tokenizer) (X y : list string)
    (m : NaiveBayesClassifier) (c t : string) :
  trained_on tok X y m ->
  (t <> TOTAL ->
   count m c t
   = sum_list (map (fun d => if decide (d.2 = c)
                             then occurrences t (apply tok d.1) else 0%nat)
                   (zip X y)))
  /\ total m c
     = sum_list (map (fun d => if decide (d.2 = c)
                               then weight (apply tok d.1) else 0%nat)
                     (zip X y))
  /\ count m c TOTAL = total m c.
Proof.
  intros Hm.
  assert (Hcell : forall k, count m c k = counted tok c k (zip X y)).
  { intros k. rewrite count_cell.
    destruct (trained_on_inv _ _ _ _ Hm) as (_ & _ & _ & _ & -> & _).
    rewrite fit_fold_cell. reflexivity. }
  split; [|split].
  - intros Ht. rewrite Hcell. unfold counted. f_equal.
    apply map_ext. intros d. unfold contribution.
    destruct (decide (t = TOTAL)); [contradiction|reflexivity].
  - change (total m c) with (count m c TOTAL). rewrite Hcell. reflexivity.
  - reflexivity.
Qed.

Lemma fit_counts_witness :
  trained_on identity_tokenizer ["a b a"; "b"; "a"] ["A"; "B"; "A"]
    (model_of (fit (init identity_tokenizer) ["a b a"; "b"; "a"]
                 ["A"; "B"; "A"]))
  /\ count (model_of (fit (init identity_tokenizer) ["a b a"; "b"; "a"]
                        ["A"; "B"; "A"])) "A" "a" = 3%nat
  /\ total (model_of (fit (init identity_tokenizer) ["a b a"; "b"; "a"]
                        ["A"; "B"; "A"])) "A" = 4%nat.
Proof.
  assert (Hm : trained_on identity_tokenizer ["a b a"; "b"; "a"]
                 ["A"; "B"; "A"]
                 (model_of (fit (init identity_tokenizer) ["a b a"; "b"; "a"]
                              ["A"; "B"; "A"]))) by run_fit.
  split; [exact Hm|].
  destruct (fit_counts identity_tokenizer _ _ _ "A" "a" Hm)
    as (Hcount & Htotal & _).
  split.
  - rewrite Hcount by discriminate. reflexivity.
  - rewrite Htotal. reflexivity.
Defined.

Lemma sum_list_pos_elem {A : Type} (f : A -> nat) (l : list A) :
  (0 < sum_list (map f l))%nat -> exists a, a ∈ l /\ (0 < f a)%nat.
Proof.
  induction l as [|a l IH]; simpl; [lia|]. intros Hpos.
  destruct (f a) as [|n] eqn:Hfa.
  - destruct (IH Hpos) as (b & Hb & Hfb). exists b.
    split; [apply elem_of_cons; tauto|exact Hfb].
  - exists a. split; [apply elem_of_cons; tauto|]. lia.
Qed.

Lemma occurrences_pos (k : string) (words : list string) :
  (0 < occurrences k words)%nat -> k ∈ words.
Proof.
  unfold occurrences. induction words as [|w words IH]; simpl; [lia|].
  destruct (bool_decide (w = k)) eqn:Hw.
  - intros _. apply bool_decide_eq_true in Hw as ->.
    apply elem_of_cons. tauto.
  - intros Hpos. apply elem_of_cons. right. apply IH. exact Hpos.
Qed.

(** X8: [fit] keeps the tables inside the vocabulary: a token counted under
    some category (the key "__total__" aside) is in the vocabulary. *)
Theorem fit_counted_tokens_in_vocabulary (tok : Tokenizer)
    (X y : list string) (m : NaiveBayesClassifier) (c t : string) :
  trained_on tok X y m ->
  t <> TOTAL ->
  (0 < count m c t)%nat ->
  t ∈ vocab m.
Proof.
  intros Hm Ht Hpos. rewrite count_cell in Hpos.
  destruct (trained_on_inv _ _ _ _ Hm) as (Hlen & _ & _ & _ & Hc & _).
  rewrite Hc, fit_fold_cell in Hpos. unfold cell in Hpos. simpl in Hpos.
  unfold counted in Hpos.
  apply sum_list_pos_elem in Hpos as ([text label] & Hin & Hd).
  simpl in Hd. destruct (decide (label = c)); [|lia].
  unfold contribution in Hd. rewrite decide_False in Hd by exact Ht.
  apply occurrences_pos in Hd.
  apply (trained_vocab_tokens _ _ _ _ t Hm). exists text.
  split; [|exact Hd].
  apply list_elem_of_In in Hin. apply in_combine_l in Hin.
  apply list_elem_of_In. exact Hin.
Qed.

Lemma fit_counted_tokens_in_vocabulary_witness :
  trained_on identity_tokenizer scenario_X scenario_y scenario_model
  /\ "wins" <> TOTAL
  /\ (0 < count scenario_model "sports" "wins")%nat
  /\ "wins" ∈ vocab scenario_model.
Proof.
  assert (Hm : trained_on identity_tokenizer scenario_X scenario_y
                 scenario_model) by run_fit.
  assert (Ht : "wins" <> TOTAL) by discriminate.
  assert (Hpos : (0 < count scenario_model "sports" "wins")%nat).
  { vm_compute. lia. }
  split; [exact Hm|]. split; [exact Ht|]. split; [exact Hpos|].
  exact (fit_counted_tokens_in_vocabulary identity_tokenizer scenario_X
           scenario_y scenario_model "sports" "wins" Hm Ht Hpos).
Defined.

(** ** When [fit] returns *)

Lemma fit_fold_tables (tok : Tokenizer) (docs : list (string * string))
    (v : gset string) (c : dict (gmap string nat)) :
  tables_have_total c ->
  tables_have_total (foldl (fit_step tok) (v, c) docs).2.
Proof.
  revert v c. induction docs as [|[text label] docs IH]; intros v c Hc.
  - exact Hc.
  - cbn [foldl].
    pose proof (fit_document_total_tables v c (apply tok text) label Hc)
      as Hc'.
    assert (Hstep : fit_step tok (v, c) (text, label)
                    = fit_document_total v c (apply tok text) label)
      by reflexivity.
    rewrite Hstep.
    destruct (fit_document_total v c (apply tok text) label) as [v' c'].
    apply IH. exact Hc'.
Qed.

Lemma fit_loop_short (tok : Tokenizer) (X y : list string) (i : nat)
    (v : gset string) (c : dict (gmap string nat)) :
  tables_have_total c ->
  (length (drop i y) < length X)%nat ->
  fit_loop tok X y i v c = Raise IndexError.
Proof.
  revert i v c. induction X as [|text X IH]; intros i v c Hc Hlen.
  - simpl in Hlen. lia.
  - cbn [fit_loop]. destruct (y !! i) as [label|] eqn:Hi; [|reflexivity].
    cbn [of_option mbind result_bind].
    rewrite (fit_document_eq v c _ label Hc).
    pose proof (fit_document_total_tables v c (apply tok text) label Hc)
      as Hc'.
    destruct (fit_document_total v c (apply tok text) label) as [v' c'].
    apply (IH (S i) v' c' Hc').
    rewrite (drop_S _ _ _ Hi) in Hlen. simpl in Hlen. lia.
Qed.

Lemma fit_loop_long (tok : Tokenizer) (X y : list string) (i : nat)
    (v : gset string) (c : dict (gmap string nat)) :
  tables_have_total c ->
  (length X <= length (drop i y))%nat ->
  fit_loop tok X y i v c
  = Ok (foldl (fit_step tok) (v, c) (zip X (drop i y))).
Proof.
  revert i v c. induction X as [|text X IH]; intros i v c Hc Hlen.
  - reflexivity.
  - cbn [fit_loop]. destruct (y !! i) as [label|] eqn:Hi.
    + cbn [of_option mbind result_bind].
      rewrite (fit_document_eq v c _ label Hc).
      pose proof (fit_document_total_tables v c (apply tok text) label Hc)
        as Hc'.
      assert (Hstep : fit_step tok (v, c) (text, label)
                      = fit_document_total v c (apply tok text) label)
        by reflexivity.
      rewrite (drop_S _ _ _ Hi) in Hlen |- *. cbn [zip_with foldl].
      rewrite Hstep.
      destruct (fit_document_total v c (apply tok text) label) as [v' c'].
      apply (IH (S i) v' c' Hc'). simpl in Hlen. lia.
    + apply lookup_ge_None in Hi. rewrite length_drop in Hlen.
      simpl in Hlen. lia.
Qed.

Lemma compute_priors_ok (items : dict (gmap string nat)) (n : nat) :
  (forall l t, (l, t) ∈ items -> is_Some (t !! TOTAL)) ->
  (items <> [] -> n <> 0%nat) ->
  compute_priors items n = Ok (priors_of items n).
Proof.
  intros Htot Hn. induction items as [|[l t] items IH]; simpl.
  - reflexivity.
  - destruct (Htot l t) as [total Htotal]; [apply elem_of_cons; tauto|].
    rewrite Htotal. simpl. rewrite py_div_ok.
    + simpl. rewrite IH.
      * simpl. unfold table_total. rewrite Htotal. reflexivity.
      * intros l' t' Hin. apply (Htot l' t'). apply elem_of_cons. tauto.
      * intros _. apply Hn. discriminate.
    + rewrite Qc_of_nat_eq_0. apply Hn. discriminate.
Qed.

(** X9: on a new classifier [fit] returns exactly when every document has a
    label; with fewer labels than documents it raises [IndexError]. Labels in
    excess are not read, yet they are counted in the number of documents that
    divides the priors. *)
Theorem fit_returns_iff_labels (tok : Tokenizer) (X y : list string) :
  ((length X <= length y)%nat ->
   exists m, fit (init tok) X y = Ok m
             /\ class_priors m = priors_of (class_word_counts m) (length y))
  /\ ((length y < length X)%nat -> fit (init tok) X y = Raise IndexError).
Proof.
  assert (Hnil : tables_have_total []) by (intros l t; discriminate).
  split.
  - intros Hlen. unfold fit. simpl.
    rewrite (fit_loop_long tok X y 0 ∅ [] Hnil) by (rewrite drop_0; exact Hlen).
    rewrite drop_0.
    destruct (foldl (fit_step tok) (∅, []) (zip X y)) as [v c] eqn:Hfold.
    simpl. rewrite compute_priors_ok.
    + simpl. eexists. split; reflexivity.
    + intros l t Hin.
      assert (Hc : c = (foldl (fit_step tok) (∅, []) (zip X y)).2)
        by (rewrite Hfold; reflexivity).
      apply (fit_fold_tables tok (zip X y) ∅ [] Hnil l t). rewrite <- Hc.
      apply dict_get_elem_of; [|exact Hin]. rewrite Hc.
      apply fit_fold_NoDup. apply NoDup_nil. exact I.
    + intros Hc Hy. apply Hc. destruct y; [|discriminate].
      destruct X; [|simpl in Hlen; lia]. simpl in Hfold.
      injection Hfold as _ <-. reflexivity.
  - intros Hlen. unfold fit. simpl.
    rewrite (fit_loop_short tok X y 0 ∅ [] Hnil) by (rewrite drop_0; exact Hlen).
    reflexivity.
Qed.

Lemma fit_returns_iff_labels_witness :
  (length ["a"; "b"] <= length ["A"; "B"; "C"])%nat
  /\ (length ["A"] < length ["a"; "b"])%nat
  /\ (exists m, fit (init identity_tokenizer) ["a"; "b"] ["A"; "B"; "C"] = Ok m
                /\ class_priors m
                   = priors_of (class_word_counts m) (length ["A"; "B"; "C"]))
  /\ fit (init identity_tokenizer) ["a"; "b"] ["A"] = Raise IndexError.
Proof.
  assert (H1 : (length ["a"; "b"] <= length ["A"; "B"; "C"])%nat)
    by (simpl; lia).
  assert (H2 : (length ["A"] < length ["a"; "b"])%nat) by (simpl; lia).
  split; [exact H1|]. split; [exact H2|]. split.
  - exact (proj1 (fit_returns_iff_labels identity_tokenizer ["a"; "b"]
                    ["A"; "B"; "C"]) H1).
  - exact (proj2 (fit_returns_iff_labels identity_tokenizer ["a"; "b"]
                    ["A"]) H2).
Defined.

(** ** What [predict] returns *)

Lemma first_argmax_key (d : dict Qc) (c : string) :
  first_argmax d c -> c ∈ dict_keys d.
Proof.
  intros (i & v & Hi & _). unfold dict_keys. apply list_elem_of_fmap.
  exists (c, v). split; [reflexivity|].
  apply list_elem_of_lookup. exists i. exact Hi.
Qed.

(** X10: for a trained model, [predict] returns one category per text, each
    of them a label of the training set; on a classifier that was never
    fitted it raises [ValueError] at the first text, the maximum of an empty
    dictionary. *)
Theorem predict_returns_training_labels (tok : Tokenizer)
    (X y : list string) (m : NaiveBayesClassifier) :
  trained_on tok X y m ->
  (forall texts preds,
     predict m texts = Ok preds ->
     length preds = length texts
     /\ Forall (fun c => c ∈ training_labels X y) preds)
  /\ (forall text texts, predict (init tok) (text :: texts) = Raise ValueError).
Proof.
  intros Hm. split; [|reflexivity].
  induction texts as [|text texts IH]; intros preds Hpred.
  - injection Hpred as <-. split; [reflexivity|constructor].
  - apply predict_cons_inv in Hpred
      as (ps & c & rest & Hps & Hmax & Hrest & ->).
    destruct (IH rest Hrest) as [Hlen Hall].
    split; [simpl; rewrite Hlen; reflexivity|].
    constructor; [|exact Hall].
    apply (trained_category_seen _ _ _ _ Hm).
    apply (calculate_posteriors_inv _ _ _ _ Hm) in Hps as ->.
    rewrite <- (dict_keys_posteriors_of m (apply tok text)).
    apply first_argmax_key, py_max_key_first_argmax. exact Hmax.
Qed.

Lemma predict_returns_training_labels_witness :
  trained_on identity_tokenizer scenario_X scenario_y scenario_model
  /\ predict scenario_model ["rally"; "unseen words"]
     = Ok ["finance"; "finance"]
  /\ length ["finance"; "finance"] = length ["rally"; "unseen words"]
  /\ Forall (fun c => c ∈ training_labels scenario_X scenario_y)
            ["finance"; "finance"].
Proof.
  assert (Hm : trained_on identity_tokenizer scenario_X scenario_y
                 scenario_model) by run_fit.
  assert (Hp : predict scenario_model ["rally"; "unseen words"]
               = Ok ["finance"; "finance"]) by (vm_compute; reflexivity).
  split; [exact Hm|]. split; [exact Hp|].
  exact (proj1 (predict_returns_training_labels identity_tokenizer scenario_X
                  scenario_y scenario_model Hm) _ _ Hp).
Defined.

(** ** [classify] and its threshold *)

Lemma how_many_mono (p q : string * string -> bool)
    (docs : list (string * string)) :
  (forall d, p d = true -> q d = true) ->
  (how_many p docs <= how_many q docs)%nat.
Proof.
  intros Hpq. unfold how_many. induction docs as [|d docs IH]; simpl; [lia|].
  destruct (p d) eqn:Hp.
  - rewrite (Hpq d Hp). simpl. lia.
  - destruct (q d); simpl; lia.
Qed.


Lemma how_many_split (p a : string * string -> bool)
    (docs : list (string * string)) :
  (how_many (fun d => p d && a d) docs
   + how_many (fun d => negb (p d) && a d) docs)%nat
  = how_many a docs.
Proof.
  unfold how_many. induction docs as [|d docs IH]; simpl; [reflexivity|].
  destruct (p d), (a d); simpl; lia.
Qed.

Lemma counts_add_zero (t : Counts) :
  counts_add {| TP := 0; FP := 0; FN := 0; TN := 0 |} t = t.
Proof. apply counts_eq; reflexivity. Qed.

(** What [classify] returns, for a trained model. *)
Lemma classify_inv (tok : Tokenizer) (X y : list string)
    (m : NaiveBayesClassifier) (X' y' : list string) (umbral : Qc)
    (category : string) (r : Counts) :
  trained_on tok X y m ->
  classify m X' y' umbral category = Ok r ->
  (length X' <= length y')%nat
  /\ r = tally (positive m umbral category) category (zip X' y').
Proof.
  intros Hm Hr. unfold classify in Hr.
  apply (classify_loop_inv _ _ _ _ Hm) in Hr as [Hlen ->].
  rewrite drop_0 in Hlen |- *. rewrite counts_add_zero. tauto.
Qed.

(** X11: raising the threshold of [classify] on the same documents never
    adds a positive: TP and FP do not grow, FN and TN do not shrink. The
    number of actual members TP + FN and of non-members FP + TN do not depend
    on the threshold. *)
Theorem classify_threshold_monotone (tok : Tokenizer) (X y : list string)
    (m : NaiveBayesClassifier) (X' y' : list string) (u1 u2 : Qc)
    (category : string) (r1 r2 : Counts) :
  trained_on tok X y m ->
  u1 <= u2 ->
  classify m X' y' u1 category = Ok r1 ->
  classify m X' y' u2 category = Ok r2 ->
  (TP r2 <= TP r1)%nat /\ (FP r2 <= FP r1)%nat
  /\ (FN r1 <= FN r2)%nat /\ (TN r1 <= TN r2)%nat
  /\ (TP r1 + FN r1 = TP r2 + FN r2)%nat
  /\ (FP r1 + TN r1 = FP r2 + TN r2)%nat.
Proof.
  intros Hm Hu H1 H2.
  apply (classify_inv _ _ _ _ _ _ _ _ _ Hm) in H1 as [_ ->].
  apply (classify_inv _ _ _ _ _ _ _ _ _ Hm) in H2 as [_ ->].
  assert (Hpos : forall text, positive m u2 category text = true ->
                              positive m u1 category text = true).
  { intros text. unfold positive. rewrite !Qc_gtb_true. intros Hlt.
    eapply Qcle_lt_trans; [exact Hu|exact Hlt]. }
  assert (Hneg : forall text, positive m u1 category text = false ->
                              positive m u2 category text = false).
  { intros text H1. destruct (positive m u2 category text) eqn:H2;
      [|reflexivity]. rewrite (Hpos text H2) in H1. discriminate H1. }
  unfold tally. simpl.
  pose proof (how_many_split (fun d => positive m u1 category d.1)
                (fun d => bool_decide (d.2 = category)) (zip X' y')) as Ha1.
  pose proof (how_many_split (fun d => positive m u2 category d.1)
                (fun d => bool_decide (d.2 = category)) (zip X' y')) as Ha2.
  pose proof (how_many_split (fun d => positive m u1 category d.1)
                (fun d => negb (bool_decide (d.2 = category))) (zip X' y'))
    as Hb1.
  pose proof (how_many_split (fun d => positive m u2 category d.1)
                (fun d => negb (bool_decide (d.2 = category))) (zip X' y'))
    as Hb2.
  simpl in Ha1, Ha2, Hb1, Hb2.
  assert (HTP : (how_many (fun d => positive m u2 category d.1
                                     && bool_decide (d.2 = category))
                   (zip X' y')
                 <= how_many (fun d => positive m u1 category d.1
                                       && bool_decide (d.2 = category))
                      (zip X' y'))%nat).
  { apply how_many_mono. intros d Hd. apply andb_prop in Hd as [Hp Ha].
    rewrite (Hpos _ Hp), Ha. reflexivity. }
  assert (HFP : (how_many (fun d => positive m u2 category d.1
                                     && negb (bool_decide (d.2 = category)))
                   (zip X' y')
                 <= how_many (fun d => positive m u1 category d.1
                                       && negb (bool_decide (d.2 = category)))
                      (zip X' y'))%nat).
  { apply how_many_mono. intros d Hd. apply andb_prop in Hd as [Hp Ha].
    rewrite (Hpos _ Hp), Ha. reflexivity. }
  lia.
Qed.

Lemma classify_threshold_monotone_witness :
  trained_on identity_tokenizer scenario_X scenario_y scenario_model
  /\ Qc_of_nat 1 / Qc_of_nat 10 <= Qc_of_nat 9 / Qc_of_nat 10
  /\ classify scenario_model ["market rally"; "team wins"]
       ["finance"; "sports"] (Qc_of_nat 1 / Qc_of_nat 10) "finance"
     = Ok {| TP := 1; FP := 1; FN := 0; TN := 0 |}
  /\ classify scenario_model ["market rally"; "team wins"]
       ["finance"; "sports"] (Qc_of_nat 9 / Qc_of_nat 10) "finance"
     = Ok {| TP := 0; FP := 0; FN := 1; TN := 1 |}
  /\ (0 <= 1)%nat /\ (0 <= 1)%nat /\ (0 <= 1)%nat /\ (0 <= 1)%nat
  /\ (1 + 0 = 0 + 1)%nat /\ (1 + 0 = 0 + 1)%nat.
Proof.
  assert (Hm : trained_on identity_tokenizer scenario_X scenario_y
                 scenario_model) by run_fit.
  assert (Hu : Qc_of_nat 1 / Qc_of_nat 10 <= Qc_of_nat 9 / Qc_of_nat 10).
  { vm_compute. discriminate. }
  assert (H1 : classify scenario_model ["market rally"; "team wins"]
                 ["finance"; "sports"] (Qc_of_nat 1 / Qc_of_nat 10) "finance"
               = Ok {| TP := 1; FP := 1; FN := 0; TN := 0 |})
    by (vm_compute; reflexivity).
  assert (H2 : classify scenario_model ["market rally"; "team wins"]
                 ["finance"; "sports"] (Qc_of_nat 9 / Qc_of_nat 10) "finance"
               = Ok {| TP := 0; FP := 0; FN := 1; TN := 1 |})
    by (vm_compute; reflexivity).
  split; [exact Hm|]. split; [exact Hu|]. split; [exact H1|].
  split; [exact H2|].
  exact (classify_threshold_monotone identity_tokenizer scenario_X scenario_y
           scenario_model _ _ _ _ _ _ _ Hm Hu H1 H2).
Defined.





Section TrainedScores.
Variables (tok : Tokenizer) (X y : list string) (m : NaiveBayesClassifier).
Hypothesis Hm : trained_on tok X y m.



End TrainedScores.



(** ** When [roc] returns *)


Section TrainedRoc.
Variables (tok : Tokenizer) (X y : list string) (m : NaiveBayesClassifier).
Hypothesis Hm : trained_on tok X y m.
Hypothesis Hvocab : vocab m <> ∅.
Variables (x_test y_test : list string).
Hypothesis Hlen : (length x_test <= length y_test)%nat.



End TrainedRoc.



(** ** The one-vs-rest confusion matrix *)

Lemma dict_keys_set_add_key {V : Type} (d : dict V) (k : string) (v : V) :
  dict_keys (dict_set d k v) = add_key (dict_keys d) k.
Proof.
  unfold add_key. destruct (decide (k ∈ dict_keys d)) as [Hin|Hnot].
  - apply dict_keys_set_old, dict_get_is_Some. exact Hin.
  - apply dict_keys_set_new, dict_get_None. exact Hnot.
Qed.

Lemma cm_init_keys (categories : list string) (d : dict Counts) :
  dict_keys (foldl (fun cm category => dict_set cm category cm_zero)
               d categories)
  = foldl add_key (dict_keys d) categories.
Proof.
  revert d. induction categories as [|c cats IH]; intros d; simpl.
  - reflexivity.
  - rewrite IH, dict_keys_set_add_key. reflexivity.
Qed.

Lemma cm_init_get (categories : list string) (d : dict Counts) (c : string) :
  (forall k v, dict_get d k = Some v -> v = cm_zero) ->
  c ∈ categories \/ c ∈ dict_keys d ->
  dict_get (foldl (fun cm category => dict_set cm category cm_zero)
              d categories) c
  = Some cm_zero.
Proof.
  revert d. induction categories as [|a cats IH]; intros d Hd Hc; simpl.
  - destruct Hc as [Hc|Hc]; [apply elem_of_nil in Hc; contradiction|].
    apply dict_get_is_Some in Hc as [v Hv]. rewrite Hv.
    rewrite (Hd c v Hv). reflexivity.
  - apply IH.
    + intros k v. destruct (decide (a = k)) as [->|Hne].
      * rewrite dict_get_set_eq. intros [= <-]. reflexivity.
      * rewrite dict_get_set_ne by exact Hne. apply Hd.
    + rewrite dict_keys_set_add_key. unfold add_key.
      destruct Hc as [Hc|Hc].
      * apply elem_of_cons in Hc as [->|Hc]; [right|left; exact Hc].
        destruct (decide (a ∈ dict_keys d)); [assumption|].
        apply elem_of_app. right. apply elem_of_cons. tauto.
      * right. destruct (decide (a ∈ dict_keys d)); [assumption|].
        apply elem_of_app. tauto.
Qed.

Lemma cm_count_one (true' pred category : string) (v : Counts) :
  cm_count true' pred category v
  = counts_add v (one_vs_rest category [(true', pred)]).
Proof.
  unfold cm_count, one_vs_rest, how_many. simpl.
  destruct (bool_decide (true' = category)), (bool_decide (pred = category));
    simpl; apply counts_eq; simpl; lia.
Qed.

Lemma one_vs_rest_cons (category : string) (p : string * string)
    (pairs : list (string * string)) :
  one_vs_rest category (p :: pairs)
  = counts_add (one_vs_rest category [p]) (one_vs_rest category pairs).
Proof.
  unfold one_vs_rest, how_many. simpl.
  destruct (bool_decide (p.1 = category)), (bool_decide (p.2 = category));
    simpl; apply counts_eq; simpl; lia.
Qed.

Lemma occurrences_cons (k w : string) (words : list string) :
  occurrences k (w :: words)
  = ((if decide (w = k) then 1 else 0) + occurrences k words)%nat.
Proof.
  unfold occurrences. simpl. destruct (decide (w = k)) as [Heq|Hne].
  - rewrite bool_decide_eq_true_2 by exact Heq. reflexivity.
  - rewrite bool_decide_eq_false_2 by exact Hne. reflexivity.
Qed.

Lemma cm_categories_spec (true' pred : string) (categories : list string)
    (cm : dict Counts) :
  (forall c, c ∈ categories -> is_Some (dict_get cm c)) ->
  exists cm',
    cm_categories true' pred categories cm = Ok cm'
    /\ dict_keys cm' = dict_keys cm
    /\ forall c v, dict_get cm c = Some v ->
         dict_get cm' c
         = Some (counts_add v
                   (counts_scale (occurrences c categories)
                      (one_vs_rest c [(true', pred)]))).
Proof.
  revert cm. induction categories as [|a cats IH]; intros cm Hkeys; simpl.
  - exists cm. split; [reflexivity|]. split; [reflexivity|].
    intros c v Hv. rewrite Hv. f_equal. apply counts_eq; simpl; lia.
  - destruct (Hkeys a) as [va Hva]; [apply elem_of_cons; tauto|].
    unfold dict_item. rewrite Hva. simpl.
    destruct (IH (dict_set cm a (cm_count true' pred a va)))
      as (cm' & -> & Hk & Hget).
    { intros c Hc. destruct (decide (a = c)) as [->|Hne].
      - rewrite dict_get_set_eq. eauto.
      - rewrite dict_get_set_ne by exact Hne. apply Hkeys.
        apply elem_of_cons. tauto. }
    exists cm'. split; [reflexivity|]. split.
    { rewrite Hk. apply dict_keys_set_old. rewrite Hva. eauto. }
    intros c v Hv. rewrite occurrences_cons.
    destruct (decide (a = c)) as [->|Hne].
    + rewrite (Hget c (cm_count true' pred c va))
        by apply dict_get_set_eq.
      rewrite Hva in Hv. injection Hv as ->. f_equal.
      rewrite cm_count_one. apply counts_eq; simpl; lia.
    + rewrite (Hget c v) by (rewrite dict_get_set_ne; assumption).
      f_equal.
Qed.

Lemma cm_pairs_spec (pairs : list (string * string))
    (categories : list string) (cm : dict Counts) :
  (forall c, c ∈ categories -> is_Some (dict_get cm c)) ->
  exists cm',
    cm_pairs pairs categories cm = Ok cm'
    /\ dict_keys cm' = dict_keys cm
    /\ forall c v, dict_get cm c = Some v ->
         dict_get cm' c
         = Some (counts_add v
                   (counts_scale (occurrences c categories)
                      (one_vs_rest c pairs))).
Proof.
  revert cm. induction pairs as [|[true' pred] pairs IH]; intros cm Hkeys;
    simpl.
  - exists cm. split; [reflexivity|]. split; [reflexivity|].
    intros c v Hv. rewrite Hv. f_equal.
    apply counts_eq; simpl; unfold how_many; simpl; lia.
  - destruct (cm_categories_spec true' pred categories cm Hkeys)
      as (cm1 & -> & Hk1 & Hget1). simpl.
    destruct (IH cm1) as (cm' & -> & Hk & Hget).
    { intros c Hc. apply dict_get_is_Some. rewrite Hk1.
      apply dict_get_is_Some. apply Hkeys. exact Hc. }
    exists cm'. split; [reflexivity|]. split; [congruence|].
    intros c v Hv. rewrite (Hget c _ (Hget1 c v Hv)). f_equal.
    rewrite (one_vs_rest_cons c (true', pred) pairs).
    apply counts_eq; cbn [TP FP FN TN counts_add counts_scale]; nia.
Qed.

Lemma compute_confusion_matrix_spec (y_true y_pred categories : list string) :
  exists cm,
    compute_confusion_matrix y_true y_pred categories = Ok cm
    /\ dict_keys cm = unique categories
    /\ forall c, c ∈ categories ->
         dict_get cm c
         = Some (counts_scale (occurrences c categories)
                   (one_vs_rest c (zip y_true y_pred))).
Proof.
  unfold compute_confusion_matrix. fold cm_zero.
  set (cm0 := foldl (fun cm category => dict_set cm category cm_zero)
                [] categories).
  assert (Hget0 : forall c, c ∈ categories -> dict_get cm0 c = Some cm_zero).
  { intros c Hc. apply cm_init_get; [intros k v; discriminate|tauto]. }
  destruct (cm_pairs_spec (zip y_true y_pred) categories cm0)
    as (cm & -> & Hk & Hget).
  { intros c Hc. rewrite (Hget0 c Hc). eauto. }
  exists cm. split; [reflexivity|]. split.
  - rewrite Hk. subst cm0. rewrite cm_init_keys, foldl_add_key. reflexivity.
  - intros c Hc. rewrite (Hget c cm_zero (Hget0 c Hc)). reflexivity.
Qed.

(** X14: [compute_confusion_matrix] never raises. Its keys are the distinct
    categories in order of first appearance, and the counts of a category are
    its one-vs-rest counts over the pairs (true, predicted), the shorter of
    the two sequences deciding how many pairs there are, multiplied by the
    number of times the category is listed: a category listed twice is
    counted twice. *)
Theorem compute_confusion_matrix_counts (y_true y_pred categories
    : list string) :
  exists cm,
    compute_confusion_matrix y_true y_pred categories = Ok cm
    /\ dict_keys cm = unique categories
    /\ forall c, c ∈ categories ->
         dict_get cm c
         = Some (counts_scale (occurrences c categories)
                   (one_vs_rest c (zip y_true y_pred))).
Proof. apply compute_confusion_matrix_spec. Qed.

Lemma one_vs_rest_total (category : string) (pairs : list (string * string)) :
  counts_total (one_vs_rest category pairs) = length pairs.
Proof.
  unfold counts_total, one_vs_rest, how_many. simpl.
  induction pairs as [|p pairs IH]; simpl; [reflexivity|].
  destruct (bool_decide (p.1 = category)), (bool_decide (p.2 = category));
    simpl; lia.
Qed.

Lemma occurrences_NoDup (k : string) (words : list string) :
  NoDup words -> k ∈ words -> occurrences k words = 1%nat.
Proof.
  induction 1 as [|w words Hw Hnd IH]; intros Hin.
  - apply elem_of_nil in Hin. contradiction.
  - rewrite occurrences_cons. apply elem_of_cons in Hin as [->|Hin].
    + rewrite decide_True by reflexivity.
      destruct (occurrences w words) eqn:Hocc; [reflexivity|].
      exfalso. apply Hw. apply occurrences_pos. lia.
    + rewrite decide_False by (intros ->; contradiction).
      rewrite IH by exact Hin. reflexivity.
Qed.

(** X15: for categories listed once each, the counts that
    [compute_confusion_matrix] gives a category add up to the number of
    (true, predicted) pairs; TP + FN is the number of pairs whose true label
    is the category and TP + FP the number of pairs predicted as it. *)
Theorem compute_confusion_matrix_totals (y_true y_pred categories
    : list string) (c : string) :
  NoDup categories ->
  c ∈ categories ->
  exists cm v,
    compute_confusion_matrix y_true y_pred categories = Ok cm
    /\ dict_get cm c = Some v
    /\ (TP v + FP v + FN v + TN v)%nat
       = Nat.min (length y_true) (length y_pred)
    /\ (TP v + FN v)%nat
       = how_many (fun p => bool_decide (p.1 = c)) (zip y_true y_pred)
    /\ (TP v + FP v)%nat
       = how_many (fun p => bool_decide (p.2 = c)) (zip y_true y_pred).
Proof.
  intros Hnd Hc.
  destruct (compute_confusion_matrix_spec y_true y_pred categories)
    as (cm & Hcm & _ & Hget).
  exists cm, (one_vs_rest c (zip y_true y_pred)).
  split; [exact Hcm|]. split.
  { rewrite (Hget c Hc), (occurrences_NoDup c categories Hnd Hc). f_equal.
    apply counts_eq; simpl; lia. }
  split; [|split].
  - pose proof (one_vs_rest_total c (zip y_true y_pred)) as Htotal.
    unfold counts_total in Htotal. rewrite Htotal, length_zip_with.
    reflexivity.
  - unfold one_vs_rest. simpl.
    pose proof (how_many_split (fun p => bool_decide (p.2 = c))
                  (fun p => bool_decide (p.1 = c)) (zip y_true y_pred)) as H.
    simpl in H. rewrite <- H. f_equal; unfold how_many; f_equal;
      apply filter_ext; intros p; apply andb_comm.
  - unfold one_vs_rest. simpl.
    pose proof (how_many_split (fun p => bool_decide (p.1 = c))
                  (fun p => bool_decide (p.2 = c)) (zip y_true y_pred)) as H.
    simpl in H. rewrite <- H. reflexivity.
Qed.

Lemma compute_confusion_matrix_totals_witness :
  NoDup ["A"; "B"] /\ "A" ∈ ["A"; "B"]
  /\ exists cm v,
       compute_confusion_matrix ["A"; "B"; "A"] ["A"; "A"; "B"] ["A"; "B"]
       = Ok cm
       /\ dict_get cm "A" = Some v
       /\ (TP v + FP v + FN v + TN v)%nat
          = Nat.min (length ["A"; "B"; "A"]) (length ["A"; "A"; "B"])
       /\ (TP v + FN v)%nat
          = how_many (fun p => bool_decide (p.1 = "A"))
              (zip ["A"; "B"; "A"] ["A"; "A"; "B"])
       /\ (TP v + FP v)%nat
          = how_many (fun p => bool_decide (p.2 = "A"))
              (zip ["A"; "B"; "A"] ["A"; "A"; "B"]).
Proof.
  assert (Hnd : NoDup ["A"; "B"]).
  { apply NoDup_ListNoDup. repeat constructor; simpl; intuition discriminate. }
  assert (Hin : "A" ∈ ["A"; "B"]) by (apply list_elem_of_In; simpl; tauto).
  split; [exact Hnd|]. split; [exact Hin|].
  exact (compute_confusion_matrix_totals ["A"; "B"; "A"] ["A"; "A"; "B"]
           ["A"; "B"] "A" Hnd Hin).
Defined.

(** ** The metrics *)

Lemma Qcdiv_rate (a s : Qc) : 0 <= a -> a <= s -> 0 < s -> is_rate (a / s).
Proof.
  intros Ha Has Hs. split.
  - apply Qcdiv_nonneg; assumption.
  - unfold Qcdiv. rewrite <- (Qcmult_inv_r s).
    + apply Qcmult_le_compat_r; [exact Has|].
      apply Qclt_le_weak, Qcinv_pos. exact Hs.
    + intros Hzero. rewrite Hzero in Hs. discriminate Hs.
Qed.

Lemma is_rate_0 : is_rate 0.
Proof. split; discriminate. Qed.

Lemma Qc_of_nat_le (a b : nat) : (a <= b)%nat -> Qc_of_nat a <= Qc_of_nat b.
Proof.
  intros Hab. unfold Qc_of_nat.
  apply (proj1 (Z2Qc_inj_le (Z.of_nat a) (Z.of_nat b))).
  apply (proj1 (Nat2Z.inj_le a b)). exact Hab.
Qed.

Lemma ratio_rate (a b : nat) :
  (a <= b)%nat ->
  is_rate (if (0 <? b)%nat then Qc_of_nat a / Qc_of_nat b else 0).
Proof.
  intros Hab. destruct (0 <? b)%nat eqn:Hb; [|apply is_rate_0].
  apply Nat.ltb_lt in Hb.
  apply Qcdiv_rate;
    [apply Qc_of_nat_nonneg|apply Qc_of_nat_le; exact Hab|
     apply Qc_of_nat_pos; exact Hb].
Qed.

Lemma f1_rate (p r : Qc) :
  is_rate p -> is_rate r ->
  is_rate (if Qc_gtb (p + r) 0 then 2 * (p * r) / (p + r) else 0).
Proof.
  intros [Hp0 Hp1] [Hr0 Hr1].
  destruct (Qc_gtb (p + r) 0) eqn:Hs; [|apply is_rate_0].
  apply Qc_gtb_true in Hs. apply Qcdiv_rate; [| |exact Hs].
  - replace (2 * (p * r)) with (p * r + p * r) by ring.
    apply Qcplus_nonneg_nonneg; apply Qcmult_nonneg_nonneg; assumption.
  - replace (2 * (p * r)) with (p * r + p * r) by ring.
    apply Qcplus_le_compat.
    + rewrite <- (Qcmult_1_r p) at 2.
      apply Qcmult_le_mono_nonneg_l; assumption.
    + rewrite <- (Qcmult_1_l r) at 2.
      apply Qcmult_le_mono_nonneg_r; assumption.
Qed.

Lemma metrics_of_rates (v : Counts) :
  is_rate (Accuracy (metrics_of v)) /\ is_rate (Precision (metrics_of v))
  /\ is_rate (Recall (metrics_of v)) /\ is_rate (F1_Score (metrics_of v)).
Proof.
  assert (Hp : is_rate (Precision (metrics_of v))).
  { unfold metrics_of. simpl. apply ratio_rate. lia. }
  assert (Hr : is_rate (Recall (metrics_of v))).
  { unfold metrics_of. simpl. apply ratio_rate. lia. }
  split; [|split; [exact Hp|split; [exact Hr|]]].
  - unfold metrics_of. simpl. apply ratio_rate. lia.
  - apply (f1_rate _ _ Hp Hr).
Qed.

Lemma dict_set_elem_of {V : Type} (d : dict V) (k k' : string) (v v' : V) :
  (k', v') ∈ dict_set d k v -> (k', v') ∈ d \/ (k', v') = (k, v).
Proof.
  induction d as [|[k0 v0] d IH]; simpl.
  - intros Hin. apply list_elem_of_singleton in Hin. tauto.
  - destruct (decide (k0 = k)) as [->|Hne]; intros Hin;
      apply elem_of_cons in Hin as [Heq|Hin].
    + tauto.
    + left. apply elem_of_cons. tauto.
    + left. apply elem_of_cons. tauto.
    + destruct (IH Hin) as [Hd|Heq]; [left; apply elem_of_cons|]; tauto.
Qed.

Lemma compute_metrics_entries (cm : dict Counts) (acc : dict Metrics)
    (c : string) (mt : Metrics) :
  (c, mt) ∈ foldl (fun metrics '(category, values) =>
                     dict_set metrics category (metrics_of values)) acc cm ->
  (c, mt) ∈ acc \/ exists v, (c, v) ∈ cm /\ mt = metrics_of v.
Proof.
  revert acc. induction cm as [|[k v] cm IH]; intros acc; simpl.
  - tauto.
  - intros Hin. destruct (IH _ Hin) as [Hacc|(v' & Hv' & ->)].
    + apply dict_set_elem_of in Hacc as [Hacc|[= -> ->]]; [tauto|].
      right. exists v. split; [apply elem_of_cons; tauto|reflexivity].
    + right. exists v'. split; [apply elem_of_cons; tauto|reflexivity].
Qed.

(** X16: every metric that [compute_metrics] returns is the metric of the
    counts of its category and lies between 0 and 1: accuracy, precision,
    recall and F1 score. *)
Theorem compute_metrics_rates (confusion_matrix : dict Counts)
    (category : string) (mt : Metrics) :
  (category, mt) ∈ compute_metrics confusion_matrix ->
  (exists values, (category, values) ∈ confusion_matrix
                  /\ mt = metrics_of values)
  /\ is_rate (Accuracy mt) /\ is_rate (Precision mt)
  /\ is_rate (Recall mt) /\ is_rate (F1_Score mt).
Proof.
  intros Hin. unfold compute_metrics in Hin.
  apply compute_metrics_entries in Hin as [Hnil|(v & Hv & ->)].
  - apply elem_of_nil in Hnil. contradiction.
  - split; [exists v; split; [exact Hv|reflexivity]|].
    apply metrics_of_rates.
Qed.

Lemma compute_metrics_rates_witness :
  ("A", metrics_of {| TP := 3; FP := 1; FN := 2; TN := 4 |})
    ∈ compute_metrics [("A", {| TP := 3; FP := 1; FN := 2; TN := 4 |})]
  /\ is_rate (F1_Score (metrics_of {| TP := 3; FP := 1; FN := 2; TN := 4 |})).
Proof.
  assert (Hin : ("A", metrics_of {| TP := 3; FP := 1; FN := 2; TN := 4 |})
                  ∈ compute_metrics
                      [("A", {| TP := 3; FP := 1; FN := 2; TN := 4 |})]).
  { apply list_elem_of_In. left. reflexivity. }
  split; [exact Hin|].
  exact (proj2 (proj2 (proj2 (proj2 (compute_metrics_rates _ _ _ Hin))))).
Defined.


(** ** The stratified split is a partition *)

Lemma unique_from_NoDup (l seen : list string) :
  NoDup (unique_from seen l).
Proof.
  revert seen. induction l as [|x l IH]; intros seen; simpl.
  - apply NoDup_nil. exact I.
  - destruct (decide (x ∈ seen)); [apply IH|].
    apply NoDup_cons. split; [|apply IH].
    rewrite elem_of_unique_from, elem_of_cons. tauto.
Qed.

Lemma slice_to_from {A : Type} (l : list A) (k : Z) :
  slice_to l k ++ slice_from l k = l.
Proof.
  unfold slice_to, slice_from. destruct (decide (0 <= k)%Z); apply take_drop.
Qed.

Section SplitPartition.
Context {row : Type} {rng : Type}.
Variable np_random_seed : Z -> rng.
Variable sample : rng -> list row -> list row * rng.
Variable stratify_column : row -> string.
Hypothesis sample_perm : forall g l, (sample g l).1 ≡ₚ l.

Lemma concat_nonempty_app (acc subset : list row) :
  concat_nonempty acc subset = acc ++ subset.
Proof. destruct subset; simpl; [rewrite app_nil_r|]; reflexivity. Qed.

Lemma cut_app (category_subset : list row) (test_size : Qc) :
  (cut category_subset test_size).1 ++ (cut category_subset test_size).2
  = category_subset.
Proof. unfold cut. simpl. apply slice_to_from. Qed.

Lemma split_loop_perm (categories : list string) (g : rng) (df : list row)
    (test_size : Qc) (train_set test_set : list row) :
  let r := split_loop sample stratify_column g df categories test_size
             train_set test_set in
  r.1.1 ++ r.1.2
  ≡ₚ train_set ++ test_set
     ++ concat (map (fun c => rows_of stratify_column c df) categories).
Proof.
  revert g train_set test_set.
  induction categories as [|c cats IH]; intros g train_set test_set.
  - simpl. rewrite app_nil_r. reflexivity.
  - cbn [split_loop map concat].
    fold (rows_of stratify_column c df).
    pose proof (sample_perm g (rows_of stratify_column c df)) as Hperm.
    destruct (sample g (rows_of stratify_column c df)) as [shuffled g1].
    simpl in Hperm.
    pose proof (cut_app shuffled test_size) as Hcut.
    destruct (cut shuffled test_size) as [train_subset test_subset].
    simpl in Hcut. unfold dropna_all.
    specialize (IH g1 (concat_nonempty train_set train_subset)
                  (concat_nonempty test_set test_subset)).
    cbv zeta in IH. rewrite IH, !concat_nonempty_app.
    rewrite <- Hperm, <- Hcut.
    rewrite <- !app_assoc.
    apply Permutation_app_head. apply Permutation_app_swap_app.
Qed.

Lemma rows_of_split (c : string) (cats : list string) (df : list row) :
  c ∉ cats ->
  rows_of stratify_column c df
  ++ List.filter (fun r => bool_decide (stratify_column r ∈ cats)) df
  ≡ₚ List.filter (fun r => bool_decide (stratify_column r ∈ c :: cats)) df.
Proof.
  intros Hc. unfold rows_of. induction df as [|r df IH]; simpl.
  - reflexivity.
  - destruct (decide (stratify_column r = c)) as [Heq|Hne].
    + rewrite bool_decide_eq_true_2 by exact Heq.
      rewrite (bool_decide_eq_false_2 (stratify_column r ∈ cats))
        by (rewrite Heq; exact Hc).
      rewrite (bool_decide_eq_true_2 (stratify_column r ∈ c :: cats))
        by (apply elem_of_cons; tauto).
      simpl. apply Permutation_skip. exact IH.
    + rewrite (bool_decide_eq_false_2 (stratify_column r = c)) by exact Hne.
      destruct (decide (stratify_column r ∈ cats)) as [Hin|Hnot].
      * rewrite (bool_decide_eq_true_2 (stratify_column r ∈ cats))
          by exact Hin.
        rewrite (bool_decide_eq_true_2 (stratify_column r ∈ c :: cats))
          by (apply elem_of_cons; tauto).
        rewrite <- Permutation_middle. apply Permutation_skip. exact IH.
      * rewrite (bool_decide_eq_false_2 (stratify_column r ∈ cats))
          by exact Hnot.
        rewrite (bool_decide_eq_false_2 (stratify_column r ∈ c :: cats))
          by (rewrite elem_of_cons; tauto).
        exact IH.
Qed.

Lemma rows_of_categories (cats : list string) (df : list row) :
  NoDup cats ->
  concat (map (fun c => rows_of stratify_column c df) cats)
  ≡ₚ List.filter (fun r => bool_decide (stratify_column r ∈ cats)) df.
Proof.
  induction 1 as [|c cats Hc Hnd IH]; simpl.
  - induction df as [|r df IHdf]; [reflexivity|]. cbn [List.filter].
    destruct (bool_decide (stratify_column r ∈ [])) eqn:Hb; [|exact IHdf].
    apply bool_decide_eq_true in Hb. apply elem_of_nil in Hb.
    contradiction.
  - rewrite IH. apply rows_of_split. exact Hc.
Qed.

Lemma rows_of_unique (df : list row) :
  concat (map (fun c => rows_of stratify_column c df)
            (unique (map stratify_column df)))
  ≡ₚ df.
Proof.
  rewrite rows_of_categories by apply unique_from_NoDup.
  assert (Hall : forall l : list row,
            (forall r, r ∈ l -> stratify_column r
                                ∈ unique (map stratify_column df)) ->
            List.filter (fun r => bool_decide
                           (stratify_column r
                            ∈ unique (map stratify_column df))) l = l).
  { induction l as [|r l IHl]; intros Hl; simpl; [reflexivity|].
    rewrite bool_decide_eq_true_2 by (apply Hl, elem_of_cons; tauto).
    rewrite IHl; [reflexivity|]. intros r' Hr'. apply Hl, elem_of_cons.
    tauto. }
  rewrite Hall; [reflexivity|].
  intros r Hr. apply elem_of_unique. apply list_elem_of_In, in_map.
  apply list_elem_of_In. exact Hr.
Qed.

Lemma train_test_split_perm (g : rng) (df : list row) (test_size : Qc)
    (random_state : option Z) (train test : list row) (g' : rng) :
  train_test_split np_random_seed sample stratify_column g df test_size
    random_state = Ok (train, test, g') ->
  train ++ test ≡ₚ df.
Proof.
  unfold train_test_split.
  destruct (seed_generator np_random_seed g random_state) as [g0|];
    [|discriminate].
  cbn [mbind result_bind].
  pose proof (split_loop_perm (unique (map stratify_column df)) g0 df
                test_size [] []) as Hloop.
  cbv zeta in Hloop.
  destruct (split_loop sample stratify_column g0 df _ test_size [] [])
    as [[train_set test_set] g1].
  simpl in Hloop.
  pose proof (sample_perm g1 train_set) as Htrain.
  destruct (sample g1 train_set) as [train' g2]. simpl in Htrain.
  pose proof (sample_perm g2 test_set) as Htest.
  destruct (sample g2 test_set) as [test' g3]. simpl in Htest.
  intros [= <- <- <-]. rewrite Htrain, Htest, Hloop.
  apply rows_of_unique.
Qed.
End SplitPartition.

Lemma toy_sample_perm (g : nat) (l : list (string * string)) :
  (toy_sample g l).1 ≡ₚ l.
Proof.
  unfold toy_sample, rotate. simpl.
  rewrite Permutation_app_comm. rewrite take_drop. reflexivity.
Qed.

(** X18: when the shuffles are permutations, [train_test_split] partitions
    the frame, whatever the test fraction and the seed: the train rows
    followed by the test rows are a rearrangement of the rows of the frame,
    so no row is lost, none is duplicated and none is in both sets. *)
Theorem train_test_split_partition {row rng : Type}
    (np_random_seed : Z -> rng)
    (sample : rng -> list row -> list row * rng)
    (stratify_column : row -> string) (g : rng) (df : list row)
    (test_size : Qc) (random_state : option Z) (train test : list row)
    (g' : rng) :
  (forall g l, (sample g l).1 ≡ₚ l) ->
  train_test_split np_random_seed sample stratify_column g df test_size
    random_state = Ok (train, test, g') ->
  train ++ test ≡ₚ df.
Proof. intros Hperm. apply train_test_split_perm. exact Hperm. Qed.

Lemma train_test_split_partition_witness :
  (forall g l, (toy_sample g l).1 ≡ₚ l)
  /\ train_test_split toy_seed toy_sample snd 1%nat toy_df
       (Qc_of_nat 1 / Qc_of_nat 2) (Some 42%Z)
     = Ok ([("first", "politics")], [("second", "politics")], 45%nat)
  /\ [("first", "politics")] ++ [("second", "politics")] ≡ₚ toy_df.
Proof.
  assert (Hsplit : train_test_split toy_seed toy_sample snd 1%nat toy_df
                     (Qc_of_nat 1 / Qc_of_nat 2) (Some 42%Z)
                   = Ok ([("first", "politics")], [("second", "politics")],
                         45%nat)) by (vm_compute; reflexivity).
  split; [exact toy_sample_perm|]. split; [exact Hsplit|].
  exact (train_test_split_partition toy_seed toy_sample snd 1%nat toy_df _ _
           _ _ _ toy_sample_perm Hsplit).
Defined.

(** ** The stratified split keeps the proportions *)

Lemma Qc_floor_le_nat (n : nat) (x : Qc) :
  0 <= x -> x <= 1 ->
  (Z.to_nat (Qc_floor (Qc_of_nat n * x)) <= n)%nat.
Proof.
  intros H0 H1.
  assert (Hle : Qc_of_nat n * x <= Qc_of_nat n).
  { rewrite <- (Qcmult_1_r (Qc_of_nat n)) at 2.
    apply Qcmult_le_mono_nonneg_l; [apply Qc_of_nat_nonneg|exact H1]. }
  assert (Hfloor : (Qc_floor (Qc_of_nat n * x) <= Z.of_nat n)%Z).
  { unfold Qc_floor. rewrite <- (Qfloor_Z (Z.of_nat n)).
    apply Qfloor_resp_le. exact Hle. }
  lia.
Qed.

Section SplitCounts.
Context {row : Type} {rng : Type}.
Variable np_random_seed : Z -> rng.
Variable sample : rng -> list row -> list row * rng.
Variable stratify_column : row -> string.
Hypothesis sample_perm : forall g l, (sample g l).1 ≡ₚ l.
Variable test_size : Qc.
Hypothesis test_size_0 : 0 <= test_size.
Hypothesis test_size_1 : test_size <= 1.

Lemma rows_of_app (c : string) (l1 l2 : list row) :
  rows_of stratify_column c (l1 ++ l2)
  = rows_of stratify_column c l1 ++ rows_of stratify_column c l2.
Proof. unfold rows_of. apply List.filter_app. Qed.

Lemma rows_of_perm (c : string) (l1 l2 : list row) :
  l1 ≡ₚ l2 ->
  rows_of stratify_column c l1 ≡ₚ rows_of stratify_column c l2.
Proof.
  unfold rows_of. induction 1 as [|r l1 l2 _ IH|r1 r2 l|l1 l2 l3 _ IH1 _ IH2];
    simpl.
  - reflexivity.
  - destruct (bool_decide _); [apply Permutation_skip|]; exact IH.
  - destruct (bool_decide (stratify_column r1 = c)),
             (bool_decide (stratify_column r2 = c));
      try reflexivity. apply Permutation_swap.
  - etransitivity; eassumption.
Qed.

Lemma rows_of_same (c a : string) (l : list row) :
  Forall (fun r => stratify_column r = a) l ->
  rows_of stratify_column c l = if decide (c = a) then l else [].
Proof.
  unfold rows_of. induction 1 as [|r l Hr _ IH]; simpl.
  - destruct (decide (c = a)); reflexivity.
  - rewrite IH, Hr. destruct (decide (c = a)) as [->|Hne].
    + rewrite bool_decide_eq_true_2 by reflexivity. reflexivity.
    + rewrite bool_decide_eq_false_2 by congruence. reflexivity.
Qed.

Lemma rows_of_Forall (a : string) (df : list row) :
  Forall (fun r => stratify_column r = a) (rows_of stratify_column a df).
Proof.
  unfold rows_of. apply Forall_forall. intros r Hr.
  apply list_elem_of_In, filter_In in Hr as [_ Hr].
  apply bool_decide_eq_true in Hr. exact Hr.
Qed.

Lemma split_loop_train (categories : list string) (g : rng) (df : list row)
    (train_set test_set : list row) (c : string) :
  NoDup categories ->
  length (rows_of stratify_column c
            (split_loop sample stratify_column g df categories test_size
               train_set test_set).1.1)
  = (length (rows_of stratify_column c train_set)
     + if decide (c ∈ categories)
       then train_share stratify_column test_size c df else 0)%nat.
Proof.
  intros Hnd. revert g train_set test_set.
  induction Hnd as [|a cats Ha Hnd IH]; intros g train_set test_set.
  - cbn [split_loop fst].
    destruct (decide (c ∈ [])) as [Hin|_]; [|lia].
    apply elem_of_nil in Hin. contradiction.
  - cbn [split_loop]. fold (rows_of stratify_column a df).
    pose proof (sample_perm g (rows_of stratify_column a df)) as Hperm.
    destruct (sample g (rows_of stratify_column a df)) as [shuffled g1].
    simpl in Hperm.
    pose proof (cut_floor shuffled test_size test_size_0 test_size_1)
      as Hcut. cbv zeta in Hcut. rewrite Hcut. unfold dropna_all.
    rewrite IH, concat_nonempty_app, rows_of_app, length_app.
    assert (Hall : Forall (fun r => stratify_column r = a) shuffled).
    { rewrite Hperm. apply rows_of_Forall. }
    assert (Hlen : length shuffled
                   = length (rows_of stratify_column a df)).
    { rewrite Hperm. reflexivity. }
    rewrite (rows_of_same c a (take _ shuffled))
      by (apply Forall_take; exact Hall).
    destruct (decide (c = a)) as [->|Hne].
    + rewrite (decide_False (P := a ∈ cats)) by exact Ha.
      rewrite (decide_True (P := a ∈ a :: cats)) by (apply elem_of_cons; tauto).
      rewrite length_take, Hlen. unfold train_share.
      pose proof (Qc_floor_le_nat (length (rows_of stratify_column a df))
                    (1 - test_size) (Qc_sub_nonneg _ _ test_size_1)) as Hk.
      assert (H1 : 1 - test_size <= 1).
      { rewrite <- (Qcplus_0_r 1) at 2. unfold Qcminus.
        apply Qcplus_le_compat; [apply Qcle_refl|].
        apply (Qcopp_le_compat 0 test_size) in test_size_0.
        exact test_size_0. }
      specialize (Hk H1). lia.
    + simpl. destruct (decide (c ∈ cats)) as [Hin|Hnot].
      * rewrite (decide_True (P := c ∈ a :: cats))
          by (apply elem_of_cons; tauto). lia.
      * rewrite (decide_False (P := c ∈ a :: cats))
          by (rewrite elem_of_cons; tauto). lia.
Qed.

Lemma train_share_absent (c : string) (df : list row) :
  c ∉ unique (map stratify_column df) ->
  train_share stratify_column test_size c df = 0%nat.
Proof.
  intros Hc. unfold train_share.
  assert (Hnil : rows_of stratify_column c df = []).
  { assert (Hne : Forall (fun r => stratify_column r <> c) df).
    { apply Forall_forall. intros r Hr Heq. apply Hc.
      apply elem_of_unique. rewrite <- Heq.
      apply list_elem_of_fmap_2. exact Hr. }
    clear Hc. unfold rows_of.
    induction Hne as [|r l Hr _ IH]; simpl; [reflexivity|].
    rewrite bool_decide_eq_false_2 by exact Hr. exact IH. }
  rewrite Hnil. simpl. rewrite Qc_of_nat_0, Qcmult_0_l. reflexivity.
Qed.

Lemma train_test_split_counts (g : rng) (df : list row)
    (random_state : option Z) (train test : list row) (g' : rng)
    (c : string) :
  train_test_split np_random_seed sample stratify_column g df test_size
    random_state = Ok (train, test, g') ->
  length (rows_of stratify_column c train)
  = train_share stratify_column test_size c df
  /\ (length (rows_of stratify_column c train)
      + length (rows_of stratify_column c test))%nat
     = length (rows_of stratify_column c df).
Proof.
  intros Hsplit.
  pose proof (train_test_split_perm np_random_seed sample stratify_column
                sample_perm _ _ _ _ _ _ _ Hsplit) as Hpart.
  split.
  - unfold train_test_split in Hsplit.
    destruct (seed_generator np_random_seed g random_state) as [g0|];
      [|discriminate].
    cbn [mbind result_bind] in Hsplit.
    pose proof (split_loop_train (unique (map stratify_column df)) g0 df
                  [] [] c (unique_from_NoDup _ _)) as Hloop.
    destruct (split_loop sample stratify_column g0 df _ test_size [] [])
      as [[train_set test_set] g1].
    simpl in Hloop.
    pose proof (sample_perm g1 train_set) as Htrain.
    destruct (sample g1 train_set) as [train' g2]. simpl in Htrain.
    destruct (sample g2 test_set) as [test' g3].
    injection Hsplit as <- <- <-.
    rewrite (Permutation_length (rows_of_perm c _ _ Htrain)), Hloop.
    destruct (decide (c ∈ unique (map stratify_column df))) as [_|Hnot];
      [reflexivity|].
    rewrite (train_share_absent c df Hnot). reflexivity.
  - rewrite <- length_app, <- rows_of_app.
    apply Permutation_length, rows_of_perm. exact Hpart.
Qed.
End SplitCounts.




(** ** The split of [main]: seed 42, one fifth for the test *)

Lemma four_fifths (n : nat) :
  Z.to_nat (Qc_floor (Qc_of_nat n * (1 - Qc_of_nat 2 / Qc_of_nat 10)))
  = (4 * n / 5)%nat.
Proof.
  assert (Hc : 1 - Qc_of_nat 2 / Qc_of_nat 10 = Q2Qc (4 # 5)).
  { apply Qc_is_canon. vm_compute. reflexivity. }
  rewrite Hc. unfold Qc_floor, Qc_of_nat.
  assert (Heq : (this (Qc_of_Z (Z.of_nat n) * Q2Qc (4 # 5))
                 == (Z.of_nat n * 4 # 5))%Q).
  { unfold Qcmult. cbn [this Q2Qc Qc_of_Z]. rewrite !Qred_correct.
    unfold Qeq, Qmult, inject_Z. simpl. lia. }
  rewrite (Qfloor_comp _ _ Heq). unfold Qfloor.
  rewrite Z2Nat.inj_div by lia.
  rewrite Z2Nat.inj_mul by lia. rewrite Nat2Z.id.
  change (Z.to_nat 4) with 4%nat. change (Z.to_nat 5) with 5%nat.
  rewrite Nat.mul_comm. reflexivity.
Qed.

(** X20: [split_train_test] seeds the generator with 42, so its outcome does
    not depend on what the generator did before, and it always returns. When
    the shuffles are permutations a category of [n] headlines gives
    [4 * n / 5] (rounded down) of them to the train set and the others to the
    test set: the one headline of a category that has no other goes to the
    test set, and the category is not trained. *)
Theorem split_train_test_four_fifths {row rng : Type}
    (np_random_seed : Z -> rng)
    (sample : rng -> list row -> list row * rng)
    (categoria : row -> string) (g1 g2 : rng) (df : list row) :
  (forall g l, (sample g l).1 ≡ₚ l) ->
  exists (train test : list row) (g' : rng),
    split_train_test np_random_seed sample categoria g1 df
    = Ok (train, test, g')
    /\ split_train_test np_random_seed sample categoria g2 df
       = Ok (train, test, g')
    /\ forall c : string,
         let n := length (rows_of categoria c df) in
         length (rows_of categoria c train) = (4 * n / 5)%nat
         /\ length (rows_of categoria c test) = (n - 4 * n / 5)%nat.
Proof.
  intros Hperm. unfold split_train_test.
  assert (Hsame : train_test_split np_random_seed sample categoria g1 df
                    (Qc_of_nat 2 / Qc_of_nat 10) (Some 42%Z)
                  = train_test_split np_random_seed sample categoria g2 df
                      (Qc_of_nat 2 / Qc_of_nat 10) (Some 42%Z))
    by reflexivity.
  rewrite <- Hsame.
  destruct (train_test_split np_random_seed sample categoria g1 df
              (Qc_of_nat 2 / Qc_of_nat 10) (Some 42%Z))
    as [[[train test] g']|e] eqn:Hsplit.
  - exists train, test, g'. split; [reflexivity|]. split; [reflexivity|].
    intros c. cbv zeta.
    assert (H0 : 0 <= Qc_of_nat 2 / Qc_of_nat 10)
      by (vm_compute; discriminate).
    assert (H1 : Qc_of_nat 2 / Qc_of_nat 10 <= 1)
      by (vm_compute; discriminate).
    destruct (train_test_split_counts np_random_seed sample categoria Hperm
                _ H0 H1 g1 df _ train test g' c Hsplit) as [Htrain Hsum].
    unfold train_share in Htrain. rewrite four_fifths in Htrain.
    split; [exact Htrain|]. lia.
  - exfalso. unfold train_test_split in Hsplit.
    cbn [seed_generator] in Hsplit.
    destruct (decide (42 = 0)%Z) as [Hz|_]; [discriminate Hz|].
    destruct (decide (0 <= 42 < 2 ^ 32)%Z) as [_|Hr]; [|lia].
    cbn [mbind result_bind] in Hsplit.
    destruct (split_loop sample categoria (np_random_seed 42%Z) df _ _ [] [])
      as [[train_set test_set] g].
    destruct (sample g train_set) as [train' g2'].
    destruct (sample g2' test_set) as [test' g3]. discriminate.
Qed.

Lemma split_train_test_four_fifths_witness :
  exists (train test : list (string * string)) (g' : nat),
    split_train_test toy_seed toy_sample snd 0%nat toy_df
    = Ok (train, test, g')
    /\ split_train_test toy_seed toy_sample snd 7%nat toy_df
       = Ok (train, test, g')
    /\ forall c : string,
         let n := length (rows_of snd c toy_df) in
         length (rows_of snd c train) = (4 * n / 5)%nat
         /\ length (rows_of snd c test) = (n - 4 * n / 5)%nat.
Proof.
  exact (split_train_test_four_fifths toy_seed toy_sample snd 0%nat 7%nat
           toy_df toy_sample_perm).
Defined.

(** ** The confusion grid of [show_matrix] and [macroaverage_values_matrix] *)

Lemma int64_small (z : Z) : (- 2 ^ 63 <= z < 2 ^ 63)%Z -> int64 z = z.
Proof. intros Hz. unfold int64. rewrite Z.mod_small by lia. lia. Qed.

Lemma sumZ_nonneg (l : list Z) :
  Forall (fun v => 0 <= v)%Z l -> (0 <= sumZ l)%Z.
Proof. induction 1 as [|v l Hv _ IH]; simpl; lia. Qed.

Lemma sumZ_app (l1 l2 : list Z) : sumZ (l1 ++ l2) = (sumZ l1 + sumZ l2)%Z.
Proof. induction l1 as [|v l1 IH]; simpl; lia. Qed.

Lemma sum_int64_from (l : list Z) (acc : Z) :
  Forall (fun v => 0 <= v)%Z l -> (0 <= acc)%Z ->
  (acc + sumZ l < 2 ^ 63)%Z ->
  foldl (fun acc v => int64 (acc + v)) acc l = (acc + sumZ l)%Z.
Proof.
  intros Hl. revert acc.
  induction Hl as [|v l Hv Hl IH]; intros acc Hacc Hb; simpl in *.
  - lia.
  - pose proof (sumZ_nonneg l Hl) as Hs.
    rewrite int64_small by lia. rewrite IH by lia. lia.
Qed.

Lemma sum_int64_sumZ (l : list Z) :
  Forall (fun v => 0 <= v)%Z l -> (sumZ l < 2 ^ 63)%Z ->
  sum_int64 l = sumZ l.
Proof.
  intros Hl Hb. unfold sum_int64. rewrite sum_int64_from by (exact Hl || lia).
  lia.
Qed.

Lemma sumZ_insert (r : list Z) (j : nat) (v x : Z) :
  r !! j = Some v -> sumZ (<[j := x]> r) = (sumZ r - v + x)%Z.
Proof.
  revert j. induction r as [|a r IH]; intros [|j] Hj; simpl in *;
    try discriminate.
  - injection Hj as ->. lia.
  - rewrite (IH j Hj). lia.
Qed.

Lemma sumZ_concat_insert (m : list (list Z)) (i : nat) (r r' : list Z) :
  m !! i = Some r ->
  sumZ (concat (<[i := r']> m)) = (sumZ (concat m) - sumZ r + sumZ r')%Z.
Proof.
  revert i. induction m as [|a m IH]; intros [|i] Hi; simpl in *;
    try discriminate.
  - injection Hi as ->. rewrite !sumZ_app. lia.
  - rewrite !sumZ_app, (IH i Hi). lia.
Qed.

Lemma sumZ_column_insert (m : list (list Z)) (i b : nat) (r r' : list Z)
    (x y : Z) :
  m !! i = Some r -> r !! b = Some x -> r' !! b = Some y ->
  sumZ (column (<[i := r']> m) b) = (sumZ (column m b) - x + y)%Z.
Proof.
  unfold column. revert i.
  induction m as [|a m IH]; intros [|i] Hi Hx Hy; csimpl in *;
    try discriminate.
  - injection Hi as ->. rewrite Hx, Hy. simpl. lia.
  - destruct (a !! b); simpl; rewrite (IH i Hi Hx Hy); lia.
Qed.

(** *** The index of the categories *)

Lemma index_from_unlisted (i : nat) (cs : list string) (d : dict nat)
    (c : string) :
  c ∉ cs -> dict_get (index_from i cs d) c = dict_get d c.
Proof.
  revert i d. induction cs as [|a cs IH]; intros i d Hc; simpl;
    [reflexivity|].
  apply not_elem_of_cons in Hc as [Hne Hc].
  rewrite IH by exact Hc. apply dict_get_set_ne. congruence.
Qed.

Lemma index_from_listed (i : nat) (cs : list string) (d : dict nat)
    (c : string) :
  c ∈ cs ->
  exists k, dict_get (index_from i cs d) c = Some (i + k)%nat
            /\ cs !! k = Some c.
Proof.
  revert i d. induction cs as [|a cs IH]; intros i d Hc.
  - apply elem_of_nil in Hc. contradiction.
  - simpl. destruct (decide (c ∈ cs)) as [Hin|Hnot].
    + destruct (IH (S i) (dict_set d a i) Hin) as (k & Hk & Hl).
      exists (S k). split; [rewrite Hk; f_equal; lia|exact Hl].
    + apply elem_of_cons in Hc as [->|Hc]; [|contradiction].
      exists 0%nat. rewrite index_from_unlisted by exact Hnot.
      rewrite dict_get_set_eq. split; [f_equal; lia|reflexivity].
Qed.

Lemma category_to_index_unlisted (cs : list string) (c : string) :
  c ∉ cs -> dict_item (category_to_index cs) c = Raise (KeyError c).
Proof.
  intros Hc. unfold dict_item, category_to_index.
  rewrite index_from_unlisted by exact Hc. reflexivity.
Qed.

Lemma category_to_index_listed (cs : list string) (c : string) :
  c ∈ cs ->
  exists k, dict_item (category_to_index cs) c = Ok k /\ cs !! k = Some c.
Proof.
  intros Hc. unfold dict_item, category_to_index.
  destruct (index_from_listed 0 cs [] c Hc) as (k & Hk & Hl).
  exists k. rewrite Hk. split; [reflexivity|exact Hl].
Qed.

(** *** One increment *)

Lemma is_grid_lookup (n : nat) (m : list (list Z)) (i j : nat) :
  is_grid n m -> (i < n)%nat -> (j < n)%nat ->
  exists row v, m !! i = Some row /\ row !! j = Some v /\ length row = n.
Proof.
  intros [Hlen Hrows] Hi Hj.
  destruct (lookup_lt_is_Some_2 m i) as [row Hrow]; [lia|].
  assert (Hr : length row = n).
  { rewrite Forall_lookup in Hrows. exact (Hrows i row Hrow). }
  destruct (lookup_lt_is_Some_2 row j) as [v Hv]; [lia|].
  exists row, v. tauto.
Qed.

Lemma is_grid_insert (n : nat) (m : list (list Z)) (i j : nat)
    (row : list Z) (x : Z) :
  is_grid n m -> m !! i = Some row ->
  is_grid n (<[i := <[j := x]> row]> m).
Proof.
  intros [Hlen Hrows] Hrow. split.
  - rewrite length_insert. exact Hlen.
  - apply Forall_insert; [exact Hrows|]. rewrite length_insert.
    rewrite Forall_lookup in Hrows. exact (Hrows i row Hrow).
Qed.

Lemma cells_within_lookup (b : Z) (m : list (list Z)) (i j : nat)
    (row : list Z) (v : Z) :
  cells_within b m -> m !! i = Some row -> row !! j = Some v ->
  (0 <= v <= b)%Z.
Proof.
  unfold cells_within. rewrite Forall_lookup. intros Hm Hrow Hv.
  pose proof (Hm i row Hrow) as Hr. rewrite Forall_lookup in Hr.
  exact (Hr j v Hv).
Qed.

Lemma cells_within_weaken (b b' : Z) (m : list (list Z)) :
  (b <= b')%Z -> cells_within b m -> cells_within b' m.
Proof.
  intros Hb. unfold cells_within. intros Hm.
  eapply Forall_impl; [exact Hm|]. intros row Hrow.
  eapply Forall_impl; [exact Hrow|]. intros v Hv. simpl in Hv. lia.
Qed.

Lemma cells_within_insert (b : Z) (m : list (list Z)) (i j : nat)
    (row : list Z) (x : Z) :
  cells_within b m -> m !! i = Some row -> (0 <= x <= b)%Z ->
  cells_within b (<[i := <[j := x]> row]> m).
Proof.
  unfold cells_within. intros Hm Hrow Hx.
  apply Forall_insert; [exact Hm|]. apply Forall_insert; [|exact Hx].
  rewrite Forall_lookup in Hm. exact (Hm i row Hrow).
Qed.

Lemma grid_incr_ok (n : nat) (m : list (list Z)) (i j : nat) :
  is_grid n m -> (i < n)%nat -> (j < n)%nat ->
  exists row v,
    m !! i = Some row /\ row !! j = Some v /\ length row = n
    /\ grid_incr m i j = Ok (<[i := <[j := int64 (v + 1)]> row]> m).
Proof.
  intros Hm Hi Hj.
  destruct (is_grid_lookup n m i j Hm Hi Hj) as (row & v & Hrow & Hv & Hl).
  exists row, v. unfold grid_incr. rewrite Hrow. cbn. rewrite Hv. cbn.
  tauto.
Qed.

Lemma grid_cell_insert (m : list (list Z)) (i j : nat) (row : list Z)
    (v x : Z) (a b : nat) :
  m !! i = Some row -> row !! j = Some v ->
  grid_cell (<[i := <[j := x]> row]> m) a b
  = if decide (a = i /\ b = j) then x else grid_cell m a b.
Proof.
  intros Hrow Hv. unfold grid_cell.
  pose proof (lookup_lt_Some _ _ _ Hrow) as Hi.
  pose proof (lookup_lt_Some _ _ _ Hv) as Hj.
  destruct (decide (a = i)) as [->|Hne].
  - rewrite list_lookup_insert_eq by exact Hi. rewrite Hrow. cbn.
    destruct (decide (b = j)) as [->|Hnj].
    + rewrite list_lookup_insert_eq by exact Hj.
      rewrite decide_True by tauto. reflexivity.
    + rewrite list_lookup_insert_ne by congruence.
      rewrite decide_False by tauto. reflexivity.
  - rewrite list_lookup_insert_ne by congruence.
    rewrite decide_False by tauto. reflexivity.
Qed.

Lemma row_sum_insert (m : list (list Z)) (i j : nat) (row : list Z)
    (v x : Z) (a : nat) :
  m !! i = Some row -> row !! j = Some v ->
  row_sum (<[i := <[j := x]> row]> m) a
  = if decide (a = i) then (row_sum m a - v + x)%Z else row_sum m a.
Proof.
  intros Hrow Hv. unfold row_sum.
  pose proof (lookup_lt_Some _ _ _ Hrow) as Hi.
  destruct (decide (a = i)) as [->|Hne].
  - rewrite list_lookup_insert_eq by exact Hi. rewrite Hrow. cbn.
    apply sumZ_insert. exact Hv.
  - rewrite list_lookup_insert_ne by congruence. reflexivity.
Qed.

Lemma column_sum_insert (n : nat) (m : list (list Z)) (i j : nat)
    (row : list Z) (v x : Z) (b : nat) :
  m !! i = Some row -> row !! j = Some v -> length row = n -> (b < n)%nat ->
  sumZ (column (<[i := <[j := x]> row]> m) b)
  = if decide (b = j) then (sumZ (column m b) - v + x)%Z
    else sumZ (column m b).
Proof.
  intros Hrow Hv Hlen Hb.
  pose proof (lookup_lt_Some _ _ _ Hv) as Hj.
  destruct (decide (b = j)) as [->|Hne].
  - apply (sumZ_column_insert m i j row _ v x Hrow Hv).
    apply list_lookup_insert_eq. exact Hj.
  - destruct (lookup_lt_is_Some_2 row b) as [w Hw]; [lia|].
    rewrite (sumZ_column_insert m i b row _ w w Hrow Hw).
    + lia.
    + rewrite list_lookup_insert_ne by congruence. exact Hw.
Qed.

Lemma pair_count_cons (a b t p : string) (pairs : list (string * string)) :
  pair_count a b ((t, p) :: pairs)
  = ((if decide (t = a /\ p = b) then 1 else 0) + pair_count a b pairs)%Z.
Proof.
  unfold pair_count, how_many. simpl.
  destruct (decide (t = a /\ p = b)) as [[-> ->]|Hne].
  - rewrite !bool_decide_eq_true_2 by reflexivity. simpl. lia.
  - destruct (bool_decide (t = a)) eqn:Ha, (bool_decide (p = b)) eqn:Hb;
      simpl; try lia.
    apply bool_decide_eq_true in Ha, Hb. tauto.
Qed.

Lemma true_count_cons (c t p : string) (pairs : list (string * string)) :
  true_count c ((t, p) :: pairs)
  = ((if decide (t = c) then 1 else 0) + true_count c pairs)%Z.
Proof.
  unfold true_count, how_many. simpl.
  destruct (decide (t = c)) as [->|Hne].
  - rewrite bool_decide_eq_true_2 by reflexivity. simpl. lia.
  - rewrite bool_decide_eq_false_2 by exact Hne. lia.
Qed.

Lemma pred_count_cons (c t p : string) (pairs : list (string * string)) :
  pred_count c ((t, p) :: pairs)
  = ((if decide (p = c) then 1 else 0) + pred_count c pairs)%Z.
Proof.
  unfold pred_count, how_many. simpl.
  destruct (decide (p = c)) as [->|Hne].
  - rewrite bool_decide_eq_true_2 by reflexivity. simpl. lia.
  - rewrite bool_decide_eq_false_2 by exact Hne. lia.
Qed.

(** *** The loop over the pairs *)

Lemma grid_pairs_returns (cs : list string) (pairs : list (string * string))
    (m : list (list Z)) :
  is_grid (length cs) m -> Forall (listed cs) pairs ->
  exists m',
    grid_pairs (category_to_index cs) pairs m = Ok m'
    /\ is_grid (length cs) m'.
Proof.
  intros Hm Hpairs. revert m Hm.
  induction Hpairs as [|[t p] pairs [Ht Hp] _ IH]; intros m Hm.
  - exists m. split; [reflexivity|exact Hm].
  - simpl in Ht, Hp.
    destruct (category_to_index_listed cs t Ht) as (it & Hti & Hit).
    destruct (category_to_index_listed cs p Hp) as (ip & Hpi & Hip).
    apply lookup_lt_Some in Hit, Hip.
    destruct (grid_incr_ok _ m it ip Hm Hit Hip)
      as (row & v & Hrow & Hv & Hlen & Hincr).
    destruct (IH (<[it := <[ip := int64 (v + 1)]> row]> m)) as (m' & Hm' & Hg).
    { apply is_grid_insert; assumption. }
    exists m'. cbn [grid_pairs]. rewrite Hti. cbn [mbind result_bind].
    rewrite Hpi. cbn [mbind result_bind]. rewrite Hincr.
    cbn [mbind result_bind]. tauto.
Qed.

Lemma grid_pairs_raises (cs : list string) (pairs : list (string * string))
    (m : list (list Z)) :
  is_grid (length cs) m -> ~ Forall (listed cs) pairs ->
  exists k,
    grid_pairs (category_to_index cs) pairs m = Raise (KeyError k)
    /\ (k ∉ cs) /\ (k ∈ map fst pairs \/ k ∈ map snd pairs).
Proof.
  revert m. induction pairs as [|[t p] pairs IH]; intros m Hm Hnot.
  - exfalso. apply Hnot. constructor.
  - cbn [grid_pairs map fst snd].
    destruct (decide (t ∈ cs)) as [Ht|Ht].
    2:{ exists t. rewrite (category_to_index_unlisted cs t Ht).
        split; [reflexivity|]. split; [exact Ht|]. left.
        apply elem_of_cons. tauto. }
    destruct (category_to_index_listed cs t Ht) as (it & Hti & Hit).
    rewrite Hti. cbn [mbind result_bind].
    destruct (decide (p ∈ cs)) as [Hp|Hp].
    2:{ exists p. rewrite (category_to_index_unlisted cs p Hp).
        split; [reflexivity|]. split; [exact Hp|]. right.
        apply elem_of_cons. tauto. }
    destruct (category_to_index_listed cs p Hp) as (ip & Hpi & Hip).
    rewrite Hpi. cbn [mbind result_bind].
    apply lookup_lt_Some in Hit, Hip.
    destruct (grid_incr_ok _ m it ip Hm Hit Hip)
      as (row & v & Hrow & Hv & Hlen & Hincr).
    rewrite Hincr. cbn [mbind result_bind].
    destruct (IH (<[it := <[ip := int64 (v + 1)]> row]> m))
      as (k & Hk & Hkc & Hkin).
    + apply is_grid_insert; assumption.
    + intros Hall. apply Hnot. constructor; [split; assumption|exact Hall].
    + exists k. split; [exact Hk|]. split; [exact Hkc|].
      rewrite !elem_of_cons. tauto.
Qed.

Lemma grid_pairs_counts (cs : list string) (pairs : list (string * string))
    (m : list (list Z)) (b : Z) :
  NoDup cs ->
  is_grid (length cs) m -> cells_within b m -> (0 <= b)%Z ->
  (b + Z.of_nat (length pairs) < 2 ^ 63)%Z ->
  Forall (listed cs) pairs ->
  exists m',
    grid_pairs (category_to_index cs) pairs m = Ok m'
    /\ is_grid (length cs) m'
    /\ cells_within (b + Z.of_nat (length pairs)) m'
    /\ (forall i j ci cj, cs !! i = Some ci -> cs !! j = Some cj ->
          grid_cell m' i j = (grid_cell m i j + pair_count ci cj pairs)%Z)
    /\ (forall i c, cs !! i = Some c ->
          row_sum m' i = (row_sum m i + true_count c pairs)%Z)
    /\ (forall j c, cs !! j = Some c ->
          sumZ (column m' j) = (sumZ (column m j) + pred_count c pairs)%Z)
    /\ sumZ (concat m')
       = (sumZ (concat m) + Z.of_nat (length pairs))%Z.
Proof.
  intros Hnd Hm Hb H0 Hbound Hpairs. revert m b Hm Hb H0 Hbound.
  induction Hpairs as [|[t p] pairs [Ht Hp] _ IH];
    intros m b Hm Hb H0 Hbound.
  - exists m. split; [reflexivity|]. split; [exact Hm|].
    split; [apply (cells_within_weaken b); [simpl; lia|exact Hb]|].
    unfold pair_count, true_count, pred_count, how_many. simpl.
    repeat split; intros; lia.
  - simpl in Ht, Hp.
    destruct (category_to_index_listed cs t Ht) as (it & Hti & Hit).
    destruct (category_to_index_listed cs p Hp) as (ip & Hpi & Hip).
    pose proof (lookup_lt_Some _ _ _ Hit) as Hit'.
    pose proof (lookup_lt_Some _ _ _ Hip) as Hip'.
    destruct (grid_incr_ok _ m it ip Hm Hit' Hip')
      as (row & v & Hrow & Hv & Hlen & Hincr).
    pose proof (cells_within_lookup b m it ip row v Hb Hrow Hv) as Hvb.
    cbn [length] in Hbound.
    rewrite int64_small in Hincr by lia.
    destruct (IH (<[it := <[ip := (v + 1)%Z]> row]> m) (b + 1)%Z)
      as (m' & Hm' & Hg & Hw & Hcell & Hrows & Hcols & Htot).
    { apply is_grid_insert; assumption. }
    { apply cells_within_insert; [|exact Hrow|lia].
      apply (cells_within_weaken b); [lia|exact Hb]. }
    { lia. }
    { lia. }
    exists m'. cbn [grid_pairs]. rewrite Hti. cbn [mbind result_bind].
    rewrite Hpi. cbn [mbind result_bind]. rewrite Hincr.
    cbn [mbind result_bind]. split; [exact Hm'|]. split; [exact Hg|].
    split; [apply (cells_within_weaken (b + 1 + Z.of_nat (length pairs)));
            [cbn [length]; lia|exact Hw]|].
    assert (Hidx : forall i c k ck, cs !! i = Some c -> cs !! k = Some ck ->
                     i = k <-> c = ck).
    { intros i c k ck Hi Hk. split.
      - intros ->. congruence.
      - intros ->. exact (NoDup_lookup cs i k ck Hnd Hi Hk). }
    split; [|split; [|split]].
    + intros i j ci cj Hi Hj. rewrite (Hcell i j ci cj Hi Hj).
      rewrite (grid_cell_insert m it ip row v _ i j Hrow Hv).
      rewrite pair_count_cons.
      pose proof (Hidx i ci it t Hi Hit) as H1.
      pose proof (Hidx j cj ip p Hj Hip) as H2.
      destruct (decide (i = it /\ j = ip)) as [[-> ->]|Hne].
      * rewrite decide_True by (split; symmetry; tauto).
        unfold grid_cell. rewrite Hrow. cbn. rewrite Hv. cbn. lia.
      * rewrite decide_False; [lia|]. intros [<- <-]. tauto.
    + intros i c Hi. rewrite (Hrows i c Hi).
      rewrite (row_sum_insert m it ip row v _ i Hrow Hv).
      rewrite true_count_cons.
      pose proof (Hidx i c it t Hi Hit) as H1.
      destruct (decide (i = it)) as [->|Hne].
      * rewrite decide_True by (symmetry; tauto). lia.
      * rewrite decide_False; [lia|]. intros <-. tauto.
    + intros j c Hj. rewrite (Hcols j c Hj).
      rewrite (column_sum_insert (length cs) m it ip row v _ j Hrow Hv Hlen)
        by (eapply lookup_lt_Some; exact Hj).
      rewrite pred_count_cons.
      pose proof (Hidx j c ip p Hj Hip) as H1.
      destruct (decide (j = ip)) as [->|Hne].
      * rewrite decide_True by (symmetry; tauto). lia.
      * rewrite decide_False; [lia|]. intros <-. tauto.
    + rewrite Htot.
      rewrite (sumZ_concat_insert m it row _ Hrow).
      rewrite (sumZ_insert row ip v _ Hv). cbn [length]. lia.
Qed.

(** *** The grid of zeros *)

Lemma sumZ_replicate_0 (n : nat) : sumZ (replicate n 0%Z) = 0%Z.
Proof. induction n as [|n IH]; simpl; [reflexivity|exact IH]. Qed.

Lemma np_zeros_is_grid (n : nat) : is_grid n (np_zeros n n).
Proof.
  split; [apply length_replicate|].
  apply Forall_replicate, length_replicate.
Qed.

Lemma np_zeros_within (k n : nat) : cells_within 0 (np_zeros k n).
Proof. apply Forall_replicate, Forall_replicate. lia. Qed.

Lemma np_zeros_cell (k n i j : nat) : grid_cell (np_zeros k n) i j = 0%Z.
Proof.
  unfold grid_cell, np_zeros.
  destruct (replicate k (replicate n 0%Z) !! i) as [row|] eqn:Hrow; cbn;
    [|reflexivity].
  apply lookup_replicate in Hrow as [-> _].
  destruct (replicate n 0%Z !! j) as [v|] eqn:Hv; cbn; [|reflexivity].
  apply lookup_replicate in Hv as [-> _]. reflexivity.
Qed.

Lemma np_zeros_row_sum (k n i : nat) : row_sum (np_zeros k n) i = 0%Z.
Proof.
  unfold row_sum, np_zeros.
  destruct (replicate k (replicate n 0%Z) !! i) as [row|] eqn:Hrow; cbn;
    [|reflexivity].
  apply lookup_replicate in Hrow as [-> _]. apply sumZ_replicate_0.
Qed.

Lemma np_zeros_column (k n j : nat) : sumZ (column (np_zeros k n) j) = 0%Z.
Proof.
  unfold column, np_zeros. induction k as [|k IH]; csimpl; [reflexivity|].
  destruct (replicate n 0%Z !! j) as [v|] eqn:Hv; simpl; [|exact IH].
  apply lookup_replicate in Hv as [-> _]. rewrite IH. reflexivity.
Qed.

Lemma np_zeros_total (k n : nat) : sumZ (concat (np_zeros k n)) = 0%Z.
Proof.
  unfold np_zeros. induction k as [|k IH]; simpl; [reflexivity|].
  rewrite sumZ_app, sumZ_replicate_0, IH. reflexivity.
Qed.

Lemma confusion_grid_spec (y_test y_pred cs : list string) :
  NoDup cs ->
  (Z.of_nat (length (zip y_test y_pred)) < 2 ^ 63)%Z ->
  Forall (listed cs) (zip y_test y_pred) ->
  exists m,
    confusion_grid y_test y_pred cs = Ok m
    /\ is_grid (length cs) m
    /\ cells_within (Z.of_nat (length (zip y_test y_pred))) m
    /\ (forall i j ci cj, cs !! i = Some ci -> cs !! j = Some cj ->
          grid_cell m i j = pair_count ci cj (zip y_test y_pred))
    /\ (forall i c, cs !! i = Some c ->
          row_sum m i = true_count c (zip y_test y_pred))
    /\ (forall j c, cs !! j = Some c ->
          sumZ (column m j) = pred_count c (zip y_test y_pred))
    /\ sumZ (concat m) = Z.of_nat (length (zip y_test y_pred)).
Proof.
  intros Hnd Hbound Hpairs. unfold confusion_grid. cbv zeta.
  destruct (grid_pairs_counts cs (zip y_test y_pred)
              (np_zeros (length cs) (length cs)) 0 Hnd
              (np_zeros_is_grid _) (np_zeros_within _ _))
    as (m & Hm & Hg & Hw & Hcell & Hrows & Hcols & Htot);
    [lia|lia|exact Hpairs|].
  exists m. split; [exact Hm|]. split; [exact Hg|].
  split; [exact Hw|]. split; [|split; [|split]].
  - intros i j ci cj Hi Hj. rewrite (Hcell i j ci cj Hi Hj), np_zeros_cell.
    lia.
  - intros i c Hi. rewrite (Hrows i c Hi), np_zeros_row_sum. lia.
  - intros j c Hj. rewrite (Hcols j c Hj), np_zeros_column. lia.
  - rewrite Htot, np_zeros_total. lia.
Qed.

(** *** The counts of a category *)

Lemma how_many_split_r (p a : string * string -> bool)
    (docs : list (string * string)) :
  (how_many (fun d => p d && a d) docs
   + how_many (fun d => p d && negb (a d)) docs)%nat
  = how_many p docs.
Proof.
  unfold how_many. induction docs as [|d docs IH]; simpl; [reflexivity|].
  destruct (p d), (a d); simpl; lia.
Qed.

Lemma one_vs_rest_counts (c : string) (pairs : list (string * string)) :
  pair_count c c pairs = Z.of_nat (TP (one_vs_rest c pairs))
  /\ true_count c pairs
     = Z.of_nat (TP (one_vs_rest c pairs) + FN (one_vs_rest c pairs))
  /\ pred_count c pairs
     = Z.of_nat (TP (one_vs_rest c pairs) + FP (one_vs_rest c pairs))
  /\ Z.of_nat (length pairs)
     = Z.of_nat (TP (one_vs_rest c pairs) + FP (one_vs_rest c pairs)
                 + FN (one_vs_rest c pairs) + TN (one_vs_rest c pairs)).
Proof.
  split; [reflexivity|]. split; [|split].
  - unfold true_count, one_vs_rest. cbn [TP FN]. f_equal. symmetry.
    apply (how_many_split_r (fun p => bool_decide (p.1 = c))
             (fun p => bool_decide (p.2 = c))).
  - unfold pred_count, one_vs_rest. cbn [TP FP]. f_equal. symmetry.
    apply (how_many_split (fun p => bool_decide (p.1 = c))
             (fun p => bool_decide (p.2 = c))).
  - f_equal. symmetry. apply (one_vs_rest_total c pairs).
Qed.

Lemma cells_within_column (b : Z) (m : list (list Z)) (j : nat) :
  cells_within b m -> Forall (fun v => 0 <= v)%Z (column m j).
Proof.
  unfold cells_within, column. induction 1 as [|row m Hrow _ IH]; csimpl.
  - constructor.
  - destruct (row !! j) as [v|] eqn:Hv; [|exact IH].
    constructor; [|exact IH]. rewrite Forall_lookup in Hrow.
    pose proof (Hrow j v Hv) as Hb. simpl in Hb. lia.
Qed.

Lemma cells_within_concat (b : Z) (m : list (list Z)) :
  cells_within b m -> Forall (fun v => 0 <= v)%Z (concat m).
Proof.
  unfold cells_within. induction 1 as [|row m Hrow _ IH]; simpl.
  - constructor.
  - apply Forall_app. split; [|exact IH].
    eapply Forall_impl; [exact Hrow|]. intros v Hv. simpl in Hv. lia.
Qed.

Lemma cells_within_row (b : Z) (m : list (list Z)) (i : nat)
    (row : list Z) :
  cells_within b m -> m !! i = Some row -> Forall (fun v => 0 <= v)%Z row.
Proof.
  unfold cells_within. rewrite Forall_lookup. intros Hm Hrow.
  eapply Forall_impl; [exact (Hm i row Hrow)|]. intros v Hv. simpl in Hv.
  lia.
Qed.

Lemma class_counts_spec (cs : list string) (pairs : list (string * string))
    (m : list (list Z)) (i : nat) (c : string) :
  (Z.of_nat (length pairs) < 2 ^ 63)%Z ->
  is_grid (length cs) m -> cells_within (Z.of_nat (length pairs)) m ->
  cs !! i = Some c ->
  grid_cell m i i = pair_count c c pairs ->
  row_sum m i = true_count c pairs ->
  sumZ (column m i) = pred_count c pairs ->
  sumZ (concat m) = Z.of_nat (length pairs) ->
  class_counts m i = Ok (counts_Z (one_vs_rest c pairs)).
Proof.
  intros Hbound Hg Hw Hi Hcell Hrows Hcols Htot.
  pose proof (lookup_lt_Some _ _ _ Hi) as Hlt.
  destruct (is_grid_lookup _ m i i Hg Hlt Hlt) as (row & v & Hrow & Hv & _).
  unfold grid_cell in Hcell. rewrite Hrow in Hcell. cbn in Hcell.
  rewrite Hv in Hcell. cbn in Hcell.
  unfold row_sum in Hrows. rewrite Hrow in Hrows.
  change (sumZ row = true_count c pairs) in Hrows.
  destruct (one_vs_rest_counts c pairs) as (Htp & Htn & Hpn & Hlen).
  unfold class_counts. rewrite Hrow. cbn [of_option mbind result_bind].
  rewrite Hv. cbn [of_option mbind result_bind]. unfold np_sum.
  rewrite (sum_int64_sumZ (column m i))
    by (try (eapply cells_within_column; exact Hw); lia).
  rewrite (sum_int64_sumZ row)
    by (try (eapply cells_within_row; eassumption); lia).
  rewrite (sum_int64_sumZ (concat m))
    by (try (eapply cells_within_concat; exact Hw); lia).
  rewrite Hcols, Hrows, Htot, Hcell, Htp, Htn, Hpn, Hlen.
  unfold counts_Z.
  set (tp := TP (one_vs_rest c pairs)) in *.
  set (fp := FP (one_vs_rest c pairs)) in *.
  set (fn := FN (one_vs_rest c pairs)) in *.
  set (tn := TN (one_vs_rest c pairs)) in *.
  assert (Hfp : int64 (Z.of_nat (tp + fp) - Z.of_nat tp) = Z.of_nat fp)
    by (rewrite int64_small; lia).
  assert (Hfn : int64 (Z.of_nat (tp + fn) - Z.of_nat tp) = Z.of_nat fn)
    by (rewrite int64_small; lia).
  rewrite Hfp, Hfn.
  rewrite (int64_small (Z.of_nat tp + Z.of_nat fp)) by lia.
  rewrite (int64_small (Z.of_nat tp + Z.of_nat fp + Z.of_nat fn)) by lia.
  rewrite int64_small by lia.
  do 3 f_equal. lia.
Qed.

Lemma counts_from_spec (pairs : list (string * string))
    (m : list (list Z)) (l : list string) (k : nat) :
  (forall j c, l !! j = Some c ->
     class_counts m (k + j) = Ok (counts_Z (one_vs_rest c pairs))) ->
  counts_from k l m
  = Ok (map (fun c => counts_Z (one_vs_rest c pairs)) l).
Proof.
  revert k. induction l as [|c l IH]; intros k Hall; [reflexivity|].
  cbn [counts_from map].
  pose proof (Hall 0%nat c eq_refl) as H0. rewrite Nat.add_0_r in H0.
  rewrite H0. cbn [mbind result_bind]. rewrite (IH (S k)).
  - reflexivity.
  - intros j c' Hj. rewrite <- (Hall (S j) c' Hj). f_equal. lia.
Qed.

Lemma unique_from_NoDup_id (l seen : list string) :
  NoDup l -> (forall x, x ∈ l -> x ∉ seen) -> unique_from seen l = l.
Proof.
  intros Hnd. revert seen.
  induction Hnd as [|a l Ha _ IH]; intros seen Hseen; simpl; [reflexivity|].
  rewrite decide_False by (apply Hseen, elem_of_cons; tauto).
  f_equal. apply IH. intros x Hx Hin.
  apply elem_of_cons in Hin as [->|Hin]; [contradiction|].
  apply (Hseen x); [apply elem_of_cons; tauto|exact Hin].
Qed.

Lemma dict_values_of_get {V : Type} (d : dict V) (f : string -> V) :
  NoDup (dict_keys d) ->
  (forall c, c ∈ dict_keys d -> dict_get d c = Some (f c)) ->
  dict_values d = map f (dict_keys d).
Proof.
  unfold dict_keys, dict_values.
  induction d as [|[k v] d IH]; intros Hnd Hget; csimpl; [reflexivity|].
  csimpl in Hnd. apply NoDup_cons in Hnd as [Hk Hnd].
  pose proof (Hget k) as Hv. csimpl in Hv.
  rewrite decide_True in Hv by reflexivity.
  assert (v = f k) as -> by (specialize (Hv ltac:(apply elem_of_cons; tauto));
                             congruence).
  f_equal. apply IH; [exact Hnd|]. intros c Hc.
  rewrite <- (Hget c) by (csimpl; apply elem_of_cons; tauto).
  csimpl. rewrite decide_False; [reflexivity|]. intros ->. contradiction.
Qed.

Lemma listed_dec (cs : list string) (pairs : list (string * string)) :
  Forall (listed cs) pairs \/ ~ Forall (listed cs) pairs.
Proof.
  induction pairs as [|[t p] pairs [IH|IH]].
  - left. constructor.
  - destruct (decide (t ∈ cs)) as [Ht|Ht]; [|right].
    + destruct (decide (p ∈ cs)) as [Hp|Hp]; [left|right].
      * constructor; [split; assumption|exact IH].
      * intros Hall. apply Forall_cons in Hall as [[_ Hp'] _].
        contradiction.
    + intros Hall. apply Forall_cons in Hall as [[Ht' _] _]. contradiction.
  - right. intros Hall. apply Forall_cons in Hall as [_ Hall].
    contradiction.
Qed.

Lemma confusion_grid_raises (y_test y_pred cs : list string) :
  ~ Forall (listed cs) (zip y_test y_pred) ->
  exists k,
    confusion_grid y_test y_pred cs = Raise (KeyError k)
    /\ (k ∉ cs) /\ (k ∈ y_test \/ k ∈ y_pred).
Proof.
  intros Hnot. unfold confusion_grid. cbv zeta.
  destruct (grid_pairs_raises cs (zip y_test y_pred)
              (np_zeros (length cs) (length cs)) (np_zeros_is_grid _) Hnot)
    as (k & Hk & Hkc & Hkin).
  exists k. split; [exact Hk|]. split; [exact Hkc|].
  destruct Hkin as [Hin|Hin]; apply list_elem_of_fmap in Hin
    as ([t p] & -> & Hin); simpl.
  - left. eapply elem_of_zip_l. exact Hin.
  - right. eapply elem_of_zip_r. exact Hin.
Qed.

Lemma confusion_grid_ok_listed (y_test y_pred cs : list string)
    (m : list (list Z)) :
  confusion_grid y_test y_pred cs = Ok m ->
  Forall (listed cs) (zip y_test y_pred).
Proof.
  intros Hm. destruct (listed_dec cs (zip y_test y_pred)) as [H|H];
    [exact H|].
  destruct (confusion_grid_raises y_test y_pred cs H) as (k & Hk & _).
  congruence.
Qed.

(** X21: the grid of [show_matrix] and [macroaverage_values_matrix] is built
    when every label of the pairs (true, predicted) is one of [categories],
    and it then has one row and one column per listed category. Otherwise
    the lookup of the first label that is not listed raises KeyError: no
    other error arises, an index is never outside of the grid. *)
Theorem confusion_grid_returns_iff (y_test y_pred categories : list string) :
  match confusion_grid y_test y_pred categories with
  | Ok m => Forall (listed categories) (zip y_test y_pred)
            /\ is_grid (length categories) m
  | Raise e => exists k, e = KeyError k /\ (k ∉ categories)
                         /\ (k ∈ y_test \/ k ∈ y_pred)
                         /\ ~ Forall (listed categories) (zip y_test y_pred)
  end.
Proof.
  destruct (listed_dec categories (zip y_test y_pred)) as [Hall|Hnot].
  - unfold confusion_grid. cbv zeta.
    destruct (grid_pairs_returns categories (zip y_test y_pred)
                (np_zeros (length categories) (length categories))
                (np_zeros_is_grid _) Hall) as (m & -> & Hg).
    split; assumption.
  - destruct (confusion_grid_raises y_test y_pred categories Hnot)
      as (k & -> & Hkc & Hkin).
    exists k. tauto.
Qed.

(** X22: the cells of the grid. When the categories are listed once each and
    the grid is built, the cell of row [i] and column [j] holds the number
    of pairs whose true label is the category of index [i] and whose
    predicted label is the category of index [j], and the cells add up to
    the number of pairs (below 2^63, the cells being 64-bit integers). *)
Theorem confusion_grid_cells (y_test y_pred categories : list string)
    (m : list (list Z)) (i j : nat) (ci cj : string) :
  NoDup categories ->
  (Z.of_nat (length (zip y_test y_pred)) < 2 ^ 63)%Z ->
  confusion_grid y_test y_pred categories = Ok m ->
  categories !! i = Some ci -> categories !! j = Some cj ->
  (exists row, m !! i = Some row
               /\ row !! j = Some (pair_count ci cj (zip y_test y_pred)))
  /\ np_sum m = Z.of_nat (length (zip y_test y_pred)).
Proof.
  intros Hnd Hbound Hm Hi Hj.
  pose proof (confusion_grid_ok_listed _ _ _ _ Hm) as Hall.
  destruct (confusion_grid_spec y_test y_pred categories Hnd Hbound Hall)
    as (m' & Hm' & Hg & Hw & Hcell & _ & _ & Htot).
  rewrite Hm in Hm'. injection Hm' as <-. split.
  - destruct (is_grid_lookup _ m i j Hg) as (row & v & Hrow & Hv & _);
      [eapply lookup_lt_Some; eassumption..|].
    exists row. split; [exact Hrow|].
    rewrite <- (Hcell i j ci cj Hi Hj). unfold grid_cell. rewrite Hrow. cbn.
    rewrite Hv. reflexivity.
  - unfold np_sum. rewrite sum_int64_sumZ; [exact Htot| |lia].
    eapply cells_within_concat. exact Hw.
Qed.

Lemma confusion_grid_cells_witness :
  (exists row, [[2; 0]; [1; 0]]%Z !! 1%nat = Some row
               /\ row !! 0%nat
                  = Some (pair_count "b" "a"
                            (zip ["a"; "b"; "a"] ["a"; "a"; "a"])))
  /\ np_sum [[2; 0]; [1; 0]]%Z
     = Z.of_nat (length (zip ["a"; "b"; "a"] ["a"; "a"; "a"])).
Proof.
  apply (confusion_grid_cells ["a"; "b"; "a"] ["a"; "a"; "a"] ["a"; "b"]
           [[2; 0]; [1; 0]]%Z 1 0 "b" "a").
  - apply NoDup_cons. split; [|apply NoDup_singleton].
    intros Hin. apply list_elem_of_singleton in Hin. discriminate.
  - vm_compute. reflexivity.
  - vm_compute. reflexivity.
  - reflexivity.
  - reflexivity.
Defined.

(** X23: the two confusion matrices agree. When the categories are listed
    once each and every label of the pairs is listed, the counts (TP, FP,
    FN, TN) that [macroaverage_values_matrix] reads off its grid for each
    category (the diagonal cell, the rest of the column, the rest of the
    row, the rest of the grid) are the counts [compute_confusion_matrix]
    holds for the categories, in the same order. *)
Theorem macroaverage_counts_agree (y_test y_pred categories : list string) :
  NoDup categories ->
  (Z.of_nat (length (zip y_test y_pred)) < 2 ^ 63)%Z ->
  Forall (listed categories) (zip y_test y_pred) ->
  exists cm,
    compute_confusion_matrix y_test y_pred categories = Ok cm
    /\ dict_keys cm = categories
    /\ macroaverage_counts y_test y_pred categories
       = Ok (map counts_Z (dict_values cm)).
Proof.
  intros Hnd Hbound Hall.
  destruct (compute_confusion_matrix_spec y_test y_pred categories)
    as (cm & Hcm & Hkeys & Hget).
  assert (Hu : unique categories = categories).
  { apply unique_from_NoDup_id; [exact Hnd|]. intros x _.
    apply not_elem_of_nil. }
  rewrite Hu in Hkeys.
  exists cm. split; [exact Hcm|]. split; [exact Hkeys|].
  rewrite (dict_values_of_get cm
             (fun c => one_vs_rest c (zip y_test y_pred))).
  2:{ rewrite Hkeys. exact Hnd. }
  2:{ rewrite Hkeys. intros c Hc.
      rewrite (Hget c Hc), (occurrences_NoDup c categories Hnd Hc). f_equal.
      apply counts_eq; simpl; lia. }
  rewrite Hkeys, map_map.
  destruct (confusion_grid_spec y_test y_pred categories Hnd Hbound Hall)
    as (m & Hm & Hg & Hw & Hcell & Hrows & Hcols & Htot).
  unfold macroaverage_counts. rewrite Hm. cbn [mbind result_bind].
  apply counts_from_spec. intros j c Hj. cbn [Nat.add].
  apply (class_counts_spec categories); try assumption.
  - exact (Hcell j j c c Hj Hj).
  - exact (Hrows j c Hj).
  - exact (Hcols j c Hj).
Qed.

Lemma macroaverage_counts_agree_witness :
  exists cm,
    compute_confusion_matrix ["a"; "b"; "a"] ["a"; "a"; "a"] ["a"; "b"]
    = Ok cm
    /\ dict_keys cm = ["a"; "b"]
    /\ macroaverage_counts ["a"; "b"; "a"] ["a"; "a"; "a"] ["a"; "b"]
       = Ok (map counts_Z (dict_values cm)).
Proof.
  apply (macroaverage_counts_agree ["a"; "b"; "a"] ["a"; "a"; "a"]
           ["a"; "b"]).
  - apply NoDup_cons. split; [|apply NoDup_singleton].
    intros Hin. apply list_elem_of_singleton in Hin. discriminate.
  - vm_compute. reflexivity.
  - repeat constructor; simpl; rewrite !elem_of_cons; tauto.
Defined.

(** *** The split of [main] and the grid *)

Lemma rows_of_empty_unlisted {row : Type} (f : row -> string) (c : string)
    (l : list row) :
  length (rows_of f c l) = 0%nat -> c ∉ map f l.
Proof.
  unfold rows_of. induction l as [|r l IH]; simpl.
  - intros _. apply not_elem_of_nil.
  - destruct (bool_decide (f r = c)) eqn:Hr; simpl; [discriminate|].
    intros Hl. apply not_elem_of_cons. split; [|exact (IH Hl)].
    apply bool_decide_eq_false in Hr. congruence.
Qed.

Lemma rows_of_nonempty_listed {row : Type} (f : row -> string) (c : string)
    (l : list row) :
  (0 < length (rows_of f c l))%nat -> c ∈ map f l.
Proof.
  unfold rows_of. induction l as [|r l IH]; simpl; [lia|].
  destruct (bool_decide (f r = c)) eqn:Hr; simpl.
  - intros _. apply bool_decide_eq_true in Hr. apply elem_of_cons.
    left. symmetry. exact Hr.
  - intros Hl. apply elem_of_cons. right. exact (IH Hl).
Qed.

Lemma elem_of_zip_with_l (c : string) (l1 l2 : list string) :
  c ∈ l1 -> (length l1 <= length l2)%nat -> exists y, (c, y) ∈ zip l1 l2.
Proof.
  revert l2. induction l1 as [|a l1 IH]; intros [|b l2] Hc Hlen;
    simpl in Hlen; try lia.
  - apply elem_of_nil in Hc. contradiction.
  - apply elem_of_nil in Hc. contradiction.
  - apply elem_of_cons in Hc as [->|Hc].
    + exists b. simpl. apply elem_of_cons. tauto.
    + destruct (IH l2 Hc) as [y Hy]; [lia|].
      exists y. simpl. apply elem_of_cons. tauto.
Qed.

(** X24: a category of one headline breaks the matrices of [main]. When the
    shuffles are permutations, [split_train_test] sends the one headline of
    such a category to the test set, so the category is not among
    [extract_categories(train_set)]; the grid of [show_matrix] and
    [macroaverage_values_matrix] over the test labels and any predictions,
    one per test headline, then raises KeyError. *)
Theorem single_headline_category_breaks_grid {row rng : Type}
    (np_random_seed : Z -> rng)
    (sample : rng -> list row -> list row * rng)
    (titular categoria : row -> string) (g : rng) (df : list row)
    (train test : list row) (g' : rng) (c : string)
    (y_pred : list string) :
  (forall g l, (sample g l).1 ≡ₚ l) ->
  split_train_test np_random_seed sample categoria g df
  = Ok (train, test, g') ->
  length (rows_of categoria c df) = 1%nat ->
  length y_pred = length test ->
  (c ∉ extract_categories categoria train)
  /\ c ∈ (split_x_y titular categoria test).2
  /\ exists k,
       confusion_grid (split_x_y titular categoria test).2 y_pred
         (extract_categories categoria train)
       = Raise (KeyError k)
       /\ k ∉ extract_categories categoria train.
Proof.
  intros Hperm Hsplit Hone Hlen. unfold split_train_test in Hsplit.
  assert (H0 : 0 <= Qc_of_nat 2 / Qc_of_nat 10)
    by (vm_compute; discriminate).
  assert (H1 : Qc_of_nat 2 / Qc_of_nat 10 <= 1)
    by (vm_compute; discriminate).
  destruct (train_test_split_counts np_random_seed sample categoria Hperm
              _ H0 H1 g df _ train test g' c Hsplit) as [Htrain Hsum].
  unfold train_share in Htrain. rewrite four_fifths, Hone in Htrain.
  change (4 * 1 / 5)%nat with 0%nat in Htrain.
  assert (Hc_train : c ∉ extract_categories categoria train).
  { unfold extract_categories. rewrite elem_of_unique.
    apply rows_of_empty_unlisted. exact Htrain. }
  assert (Hc_test : c ∈ map categoria test).
  { apply rows_of_nonempty_listed. lia. }
  split; [exact Hc_train|]. split; [exact Hc_test|].
  cbn [split_x_y snd].
  destruct (elem_of_zip_with_l c (map categoria test) y_pred Hc_test)
    as [y Hy]; [rewrite length_map; lia|].
  destruct (confusion_grid_raises (map categoria test) y_pred
              (extract_categories categoria train))
    as (k & Hk & Hkc & _).
  { intros Hall. rewrite Forall_forall in Hall.
    destruct (Hall _ Hy) as [Hin _]. contradiction. }
  exists k. split; assumption.
Qed.

Lemma single_headline_category_breaks_grid_witness :
  ("sports" ∉ extract_categories snd
                [("first", "politics"); ("second", "politics")])
  /\ "sports" ∈ (split_x_y fst snd
                   [("fourth", "sports"); ("third", "politics")]).2
  /\ exists k,
       confusion_grid
         (split_x_y fst snd [("fourth", "sports"); ("third", "politics")]).2
         ["politics"; "politics"]
         (extract_categories snd
            [("first", "politics"); ("second", "politics")])
       = Raise (KeyError k)
       /\ k ∉ extract_categories snd
                [("first", "politics"); ("second", "politics")].
Proof.
  apply (single_headline_category_breaks_grid toy_seed toy_sample fst snd
           0%nat
           [("first", "politics"); ("second", "politics");
            ("third", "politics"); ("fourth", "sports")]
           [("first", "politics"); ("second", "politics")]
           [("fourth", "sports"); ("third", "politics")]
           46%nat "sports" ["politics"; "politics"] toy_sample_perm).
  - vm_compute. reflexivity.
  - vm_compute. reflexivity.
  - reflexivity.
Defined.
